(** * mat_display: crochet-pattern generation from a mesh and a scalar field

    A shallow embedding of the algorithmic functions of [mat_display.py]
    ([generate_crochet_pattern], [find_row_order], [compute_gradient],
    [rotated_gradient], [find_column_order]) together with the properties
    stated about them.

    Conventions of the embedding.
    - A numpy 1-D array is a [list]; the 2-D [vertices] array is a list of
      rows, all of one length.
    - A Python call that can raise returns a [result]: [Ok v] for a normal
      return, [Raise e] for an exception.
    - Indices are [nat]: every index the code builds comes from [enumerate]
      or from [np.argmin]/[np.where] and is non-negative.
    - Scalars are embedded twice.  The first embedding takes the entries of
      the [float64] arrays as exact rationals [Q]; it carries the statements
      that rounding cannot change: the counts of stitches and edges, the
      seed, the shapes, the failures, the quarter turn, what is done with
      the result of the solver.  The module [Binary64] embeds
      [find_row_order] and [compute_gradient] again on binary64 numbers
      with the IEEE 754 operations; it carries the statements that rounding
      decides: how many isoline values there are, which rows hold a vertex
      and which vertices are neighbours. *)

From Stdlib Require Import List Arith ZArith QArith Qround Qabs Lia Lqa Bool Sorted.
From Stdlib Require Import PrimFloat FloatOps SpecFloat.
From Stdlib Require Uint63.
Import ListNotations.

Set Implicit Arguments.
Set Warnings "-inexact-float".

Close Scope Q_scope.
Open Scope nat_scope.

(** ** Python results *)

Inductive exn : Type :=
| ValueError    (* np.argmin / np.max of an empty array, np.dot of unfit shapes *)
| IndexError    (* an index or a boolean mask that does not fit the array *)
| ArangeError.  (* np.arange with a zero step: the quotient that gives the
                   length is infinite or undefined, and numpy raises on it;
                   so it does on a length beyond the range of an index *)

Inductive result (A : Type) : Type :=
| Ok (a : A)
| Raise (e : exn).

Arguments Ok {A} a.
Arguments Raise {A} e.

Definition bind {A B : Type} (r : result A) (k : A -> result B) : result B :=
  match r with
  | Ok a => k a
  | Raise e => Raise e
  end.

Notation "x <- r ;; k" := (bind r (fun x => k))
  (at level 61, r at next level, right associativity).

(** ** Data *)

Definition vertex : Type := list Q.
Definition face : Type := list Z.

Record stitch : Type := mk_stitch {
  vertex_index : nat;
  position : list Q;
  distance : Q
}.

Record pattern : Type := mk_pattern {
  seed_vertex : nat;
  row_edges : list (nat * nat);
  col_edges : list (nat * nat);
  stitches : list stitch
}.

(** ** numpy reductions used by the code *)

(** [np.argmin]: the scan keeps the running minimum [mp] and its index [mi]
    and replaces them at position [i] when [not (x >= mp)]. *)
Fixpoint argmin_from (mp : Q) (mi i : nat) (xs : list Q) : nat :=
  match xs with
  | [] => mi
  | x :: xs' =>
      if Qle_bool mp x then argmin_from mp mi (S i) xs'
      else argmin_from x i (S i) xs'
  end.

Definition np_argmin (xs : list Q) : result nat :=
  match xs with
  | [] => Raise ValueError
  | x :: xs' => Ok (argmin_from x 0 1 xs')
  end.

(** [np.argmax]: the mirror scan, replacing when [not (x <= mp)]. *)
Fixpoint argmax_from (mp : Q) (mi i : nat) (xs : list Q) : nat :=
  match xs with
  | [] => mi
  | x :: xs' =>
      if Qle_bool x mp then argmax_from mp mi (S i) xs'
      else argmax_from x i (S i) xs'
  end.

Definition np_argmax (xs : list Q) : result nat :=
  match xs with
  | [] => Raise ValueError
  | x :: xs' => Ok (argmax_from x 0 1 xs')
  end.

(** [np.max]. *)
Definition Qmax (a b : Q) : Q := if Qle_bool a b then b else a.

Definition np_max (xs : list Q) : result Q :=
  match xs with
  | [] => Raise ValueError
  | x :: xs' => Ok (fold_left Qmax xs' x)
  end.

(** ** generate_crochet_pattern *)

(** The body of [for i, vertex in enumerate(vertices)], one call per
    remaining vertex; [distances[i]] raises when [i] is out of range, and
    [float(distances[i])] is the entry itself for the [float64] entries of
    the embedding. *)
Fixpoint stitch_loop (i : nat) (vs : list vertex) (distances : list Q)
    (row_edges : list (nat * nat)) (instructions : list stitch)
  : result (list (nat * nat) * list stitch) :=
  match vs with
  | [] => Ok (row_edges, instructions)
  | v :: vs' =>
      match nth_error distances i with
      | None => Raise IndexError
      | Some d =>
          let st := mk_stitch i v d in
          let row_edges' :=
            if 0 <? i then row_edges ++ [(i - 1, i)] else row_edges in
          stitch_loop (S i) vs' distances row_edges' (instructions ++ [st])
      end
  end.

(** [zip(row_edges[:-1], row_edges[1:])] followed by the append of
    [(start[1], end[0])]. *)
Definition form_columns (row_edges : list (nat * nat)) : list (nat * nat) :=
  map (fun se => (snd (fst se), fst (snd se)))
      (combine (removelast row_edges) (tl row_edges)).

Definition generate_crochet_pattern
    (vertices : list vertex) (faces : list face) (distances : list Q)
  : result pattern :=
  seed <- np_argmin distances ;;
  max_vertex <- np_argmax distances ;;
  ri <- stitch_loop 0 vertices distances [] [] ;;
  Ok (mk_pattern seed (fst ri) (form_columns (fst ri)) (snd ri)).

(** ** find_row_order *)

Record row_entry : Type := mk_entry {
  vert_index : nat;
  raw_distance : Q;
  reg_distance : Q
}.

(** The strict comparison [a < b] on scalars. *)
Definition Qltb (a b : Q) : bool := negb (Qle_bool b a).

(** [np.arange(0, stop, step)]: [ceil((stop - 0) / step)] values
    [0 + k * step]; no value when that length is not positive; a zero step
    leaves the length undefined and the call raises.  The quotient and the
    products are exact here; [Binary64.np_arange0] has the rounded ones. *)
Definition np_arange0 (stop step : Q) : result (list Q) :=
  if Qeq_bool step 0 then Raise ArangeError
  else
    let len := Z.to_nat (Qceiling ((stop - 0) / step)) in
    Ok (map (fun k => (0 + inject_Z (Z.of_nat k) * step)%Q) (seq 0 len)).

(** [np.abs(d - isoline_value) < w / 2], between exact numbers;
    [Binary64.close_to] is the test on rounded ones. *)
Definition close_to (d isoline_value w : Q) : bool :=
  Qltb (Qabs (d - isoline_value)) (w / 2).

(** [a[mask]] for a boolean mask: the mask has to be as long as the array. *)
Fixpoint compress {A : Type} (mask : list bool) (a : list A) : list A :=
  match mask, a with
  | b :: mask', x :: a' => if b then x :: compress mask' a' else compress mask' a'
  | _, _ => []
  end.

Definition mask_index {A : Type} (a : list A) (mask : list bool)
  : result (list A) :=
  if length mask =? length a then Ok (compress mask a) else Raise IndexError.

(** The list comprehension building one row, from vertex [i] on. *)
Fixpoint row_loop (i : nat) (vs : list vertex) (distances : list Q)
    (isoline_value w : Q) : result (list row_entry) :=
  match vs with
  | [] => Ok []
  | _ :: vs' =>
      match nth_error distances i with
      | None => Raise IndexError
      | Some d =>
          rest <- row_loop (S i) vs' distances isoline_value w ;;
          Ok (if close_to d isoline_value w
              then mk_entry i d isoline_value :: rest
              else rest)
      end
  end.

(** [for isoline_value in isoline_values], with [row_order] the rows
    appended so far. *)
Fixpoint isoline_loop (isoline_values : list Q) (vertices : list vertex)
    (distances : list Q) (w : Q) (row_order : list (list row_entry))
  : result (list (list row_entry)) :=
  match isoline_values with
  | [] => Ok row_order
  | isoline_value :: rest =>
      close_vertices <-
        mask_index vertices
          (map (fun d => close_to d isoline_value w) distances) ;;
      row <- row_loop 0 vertices distances isoline_value w ;;
      isoline_loop rest vertices distances w (row_order ++ [row])
  end.

Definition find_row_order
    (vertices : list vertex) (faces : list face) (distances : list Q) (w : Q)
  : result (list (list row_entry)) :=
  max_distance <- np_max distances ;;
  isoline_values <- np_arange0 max_distance w ;;
  isoline_loop isoline_values vertices distances w [].

(** The isoline values [find_row_order] iterates over. *)
Definition isoline_values_of (distances : list Q) (w : Q) : result (list Q) :=
  max_distance <- np_max distances ;;
  np_arange0 max_distance w.

(** ** compute_gradient *)

(** Row arithmetic of numpy, component by component. *)
Definition vsub (u v : list Q) : list Q :=
  map (fun p => (fst p - snd p)%Q) (combine u v).

Definition vadd (u v : list Q) : list Q :=
  map (fun p => (fst p + snd p)%Q) (combine u v).

Definition vscale (c : Q) (u : list Q) : list Q := map (Qmult c) u.

Definition sumsq (u : list Q) : Q :=
  fold_right (fun x acc => (x * x + acc)%Q) 0%Q u.

(** The neighbourhood radius [1e-5]. *)
Definition epsilon : Q := 1 # 100000.

(** [np.linalg.norm(u - v) < 1e-5].  The norm is a square root; as it is
    non-negative and the radius is positive, the comparison is the one of the
    squares, which is the form that stays within [Q].  [Binary64.near] is
    the test on the rounded norm. *)
Definition near (u v : list Q) : bool :=
  Qltb (sumsq (vsub u v)) (epsilon * epsilon).

(** [np.where(mask)[0]]: the positions of the true entries, increasing. *)
Fixpoint where_from (i : nat) (mask : list bool) : list nat :=
  match mask with
  | [] => []
  | b :: mask' => if b then i :: where_from (S i) mask' else where_from (S i) mask'
  end.

Definition np_where (mask : list bool) : list nat := where_from 0 mask.

(** [a[idx]] for an index array. *)
Fixpoint take {A : Type} (a : list A) (idx : list nat) : result (list A) :=
  match idx with
  | [] => Ok []
  | j :: idx' =>
      match nth_error a j with
      | None => Raise IndexError
      | Some x => rest <- take a idx' ;; Ok (x :: rest)
      end
  end.

(** [a[i]] for one index. *)
Definition item {A : Type} (a : list A) (i : nat) : result A :=
  match nth_error a i with
  | None => Raise IndexError
  | Some x => Ok x
  end.

(** [np.mean(rows, axis=0)]: the column sums over the number of rows. *)
Definition np_mean_axis0 (rows : list (list Q)) : list Q :=
  match rows with
  | [] => []
  | r :: rs =>
      map (fun s => (s / inject_Z (Z.of_nat (length rows)))%Q)
          (fold_left vadd rs r)
  end.

(** [gradients[i] = g]. *)
Fixpoint set_row {A : Type} (i : nat) (g : A) (gradients : list A) : list A :=
  match gradients, i with
  | [], _ => []
  | _ :: tl, O => g :: tl
  | x :: tl, S i' => x :: set_row i' g tl
  end.

(** [np.zeros_like(vertices)]. *)
Definition zeros_like (vertices : list vertex) : list (list Q) :=
  map (fun v => repeat 0%Q (length v)) vertices.

(** [value_deltas[:, np.newaxis] * deltas]: row [k] of [deltas] scaled by
    entry [k] of [value_deltas]. *)
Definition broadcast_mul (value_deltas : list Q) (deltas : list (list Q))
  : list (list Q) :=
  map (fun p => vscale (fst p) (snd p)) (combine value_deltas deltas).

(** The body of [for i, v in enumerate(vertices)]; [todo] holds the vertices
    still to visit and [gradients] the array as updated so far. *)
Fixpoint gradient_loop (i : nat) (todo : list vertex)
    (vertices : list vertex) (values : list Q) (gradients : list (list Q))
  : result (list (list Q)) :=
  match todo with
  | [] => Ok gradients
  | v :: todo' =>
      let neighbors := np_where (map (fun u => near u v) vertices) in
      if 1 <? length neighbors then
        nv <- take vertices neighbors ;;
        let deltas := map (fun u => vsub u v) nv in
        vals <- take values neighbors ;;
        vi <- item values i ;;
        let value_deltas := map (fun x => (x - vi)%Q) vals in
        let g := np_mean_axis0 (broadcast_mul value_deltas deltas) in
        gradient_loop (S i) todo' vertices values (set_row i g gradients)
      else gradient_loop (S i) todo' vertices values gradients
  end.

Definition compute_gradient (vertices : list vertex) (values : list Q)
  : result (list (list Q)) :=
  gradient_loop 0 vertices vertices values (zeros_like vertices).

(** ** rotated_gradient *)

Definition J : list (list Q) := [[0; -1]; [1; 0]]%Q.

(** [M.T] for a matrix with [m] columns. *)
Definition transpose (m : nat) (M : list (list Q)) : list (list Q) :=
  map (fun c => map (fun r => nth c r 0%Q) M) (seq 0 m).

(** One row of [np.dot(A, B)]: the combination of the rows of [B] with the
    entries of [a] as coefficients; the shapes have to agree. *)
Definition dot_row (m : nat) (a : list Q) (B : list (list Q))
  : result (list Q) :=
  if length a =? length B
  then Ok (fold_left vadd (broadcast_mul a B) (repeat 0%Q m))
  else Raise ValueError.

Fixpoint np_dot (m : nat) (A B : list (list Q)) : result (list (list Q)) :=
  match A with
  | [] => Ok []
  | a :: A' =>
      r <- dot_row m a B ;;
      rest <- np_dot m A' B ;;
      Ok (r :: rest)
  end.

Definition rotated_gradient (gradients : list (list Q))
  : result (list (list Q)) :=
  np_dot 2 (map (firstn 2) gradients) (transpose 2 J).

(** ** find_column_order *)

(** What [scipy.optimize.minimize] hands back: the final iterate and the
    solver's own account of how the run ended. *)
Record optimize_result : Type := mk_optimize_result {
  x : list Q;
  success : bool;
  status : Z
}.

(** A Python index into an array of length [n], negative ones counting from
    the end. *)
Definition py_index (n : nat) (b : Z) : option nat :=
  if ((0 <=? b) && (b <? Z.of_nat n))%Z then Some (Z.to_nat b)
  else if ((- Z.of_nat n <=? b) && (b <? 0))%Z
       then Some (Z.to_nat (Z.of_nat n + b))
       else None.

(** [g[boundary_indices] = c]. *)
Fixpoint assign_at (g : list Q) (boundary_indices : list Z) (c : Q)
  : result (list Q) :=
  match boundary_indices with
  | [] => Ok g
  | b :: rest =>
      match py_index (length g) b with
      | None => Raise IndexError
      | Some i => assign_at (set_row i c g) rest c
      end
  end.

Section ColumnOrder.

(** The L-BFGS-B run of [minimize(objective, g_initial, args=(vertices,
    gradients, rotated_gradients))].  The solver is a library routine and
    [objective] is evaluated only by it, so the run as a whole is a
    parameter: from the initial guess and the three extra arguments it
    returns a result record, or raises. *)
Variable minimize :
  list Q -> list vertex -> list (list Q) -> list (list Q) ->
  result optimize_result.

Definition find_column_order
    (vertices : list vertex) (f_values : list Q) (boundary_indices : list Z)
  : result (list Q) :=
  gradients <- compute_gradient vertices f_values ;;
  rotated_gradients <- rotated_gradient gradients ;;
  g_initial <- assign_at (repeat 0%Q (length vertices)) boundary_indices 0%Q ;;
  res <- minimize g_initial vertices gradients rotated_gradients ;;
  Ok (x res).

End ColumnOrder.

(** ** The column orders of the driver *)

Section Driver.

Variable minimize :
  list Q -> list vertex -> list (list Q) -> list (list Q) ->
  result optimize_result.

(** The driver's loop [for close_vertices in row_order] that fills
    [column_orders]: a row of more than one entry has its raw distances and
    its vertex positions gathered and handed to [find_column_order] with
    the boundary index [0]; any other row is passed over.  The [print] of
    each result is output only and is left out. *)
Fixpoint column_orders_loop (row_order : list (list row_entry))
    (vertices : list vertex) (column_orders : list (list Q))
  : result (list (list Q)) :=
  match row_order with
  | [] => Ok column_orders
  | close_vertices :: rest =>
      if 1 <? length close_vertices then
        let f_values := map raw_distance close_vertices in
        row_vertices <- take vertices (map vert_index close_vertices) ;;
        g_values <-
          find_column_order minimize row_vertices f_values [0%Z] ;;
        column_orders_loop rest vertices (column_orders ++ [g_values])
      else column_orders_loop rest vertices column_orders
  end.

End Driver.

(** ** objective and the call of the solver *)

(** [np.gradient(f, coordinates, axis=0)] for a 1-D array [f] and one
    spacing argument.  numpy takes a scalar, or the 1-D array of the
    coordinates along the axis, and raises [ValueError] for an argument of
    any other dimension.  The argument is a 2-D array here, so the call
    raises whatever the two arrays hold. *)
Definition np_gradient_rows (f : list Q) (coordinates : list (list Q))
  : result (list (list Q)) :=
  Raise ValueError.

(** [np.einsum('ij,ij->i', A, B)]: the scalar product of row [i] of [A] and
    row [i] of [B], for two arrays of one shape. *)
Definition einsum_rows (A B : list (list Q)) : result (list Q) :=
  if (length A =? length B)
     && forallb (fun p => length (fst p) =? length (snd p)) (combine A B)
  then Ok (map (fun p =>
                  fold_left Qplus
                    (map (fun ab => (fst ab * snd ab)%Q)
                         (combine (fst p) (snd p)))
                    0%Q)
               (combine A B))
  else Raise ValueError.

Definition objective (g : list Q) (vertices : list vertex)
    (gradients rotated_gradients : list (list Q)) : result Q :=
  dg <- np_gradient_rows g (map (firstn 2) vertices) ;;
  products <- einsum_rows gradients dg ;;
  let diff := map (fun s => (s - 1)%Q) products in
  Ok (fold_left Qplus (map (fun d => (d * d)%Q) diff) 0%Q).

Section Solver.

(** What L-BFGS-B does once the objective has a value at the initial guess:
    the iterations are the library's and stay a parameter. *)
Variable lbfgsb :
  (list Q -> result Q) -> list Q -> Q -> result optimize_result.

(** [minimize(fun, x0, args=(vertices, gradients, rotated_gradients),
    method='L-BFGS-B')]: the solver starts by evaluating [fun] at [x0]
    with the extra arguments; an exception raised by [fun] leaves
    [minimize] as it is. *)
Definition scipy_minimize
    (fun_ : list Q -> list vertex -> list (list Q) -> list (list Q) ->
            result Q)
    (x0 : list Q) (vertices : list vertex)
    (gradients rotated_gradients : list (list Q)) : result optimize_result :=
  f0 <- fun_ x0 vertices gradients rotated_gradients ;;
  lbfgsb (fun g => fun_ g vertices gradients rotated_gradients) x0 f0.

End Solver.

(** ** Statements and test data *)

(** The row edge appended at vertex [j], and the column edge whose two ends
    are both [j]. *)
Definition seq_edge (j : nat) : nat * nat := (j - 1, j).
Definition self_loop (j : nat) : nat * nat := (j, j).

(** [s] is the position of the least entry of [d], the first one when the
    least value occurs more than once. *)
Definition first_argmin (d : list Q) (s : nat) : Prop :=
  s < length d
  /\ (forall j, j < length d -> (nth s d 0 <= nth j d 0)%Q)
  /\ (forall j, j < s -> (nth s d 0 < nth j d 0)%Q).

(** The flat unit square of the concrete scenario. *)
Definition unit_square : list vertex :=
  [[0; 0; 0]; [1; 0; 0]; [0; 1; 0]; [1; 1; 0]]%Q.

Definition unit_square_faces : list face := [[0; 1; 2]; [1; 3; 2]]%Z.

Definition unit_square_field : list Q := [0; 1; 1; 2]%Q.

(** A field whose least value occurs twice. *)
Definition tied_field : list Q := [3; 1; 2; 1]%Q.


(** The scenario as the specification words it: two isoline values [0] and
    [0.5], vertex [0] alone in the first bucket, nothing in the second, and
    seed vertex [0]. *)
Definition scenario_as_specified : Prop :=
  exists ts rows p,
    isoline_values_of unit_square_field (1 # 2) = Ok ts
    /\ Forall2 Qeq ts [0; 1 # 2]%Q
    /\ find_row_order unit_square unit_square_faces unit_square_field (1 # 2)
       = Ok rows
    /\ map (map vert_index) rows = [[0]; []]
    /\ generate_crochet_pattern unit_square unit_square_faces unit_square_field
       = Ok p
    /\ seed_vertex p = 0.


(** A row of two vertices, as the driver passes it. *)
Definition two_vertex_row : list vertex := [[0; 0; 0]; [1; 0; 0]]%Q.
Definition two_vertex_values : list Q := [0; 1]%Q.

(** The neighbours of a position, as the specification words them: the
    vertices whose distance from it is below the radius. *)
Definition neighbors_of (vertices : list vertex) (v : vertex) : list nat :=
  filter (fun j => near (nth j vertices []) v) (seq 0 (length vertices)).

(** The sum of a list of scalars. *)
Definition Qsum (l : list Q) : Q := fold_right Qplus 0%Q l.

(** The gradient at vertex [i], as the specification words it: coordinate by
    coordinate, the mean over the neighbours of
    [(field[neighbor] - field[i]) * (position[neighbor] - position[i])] when
    there are at least two neighbours, and zero otherwise. *)
Definition gradient_formula (vertices : list vertex) (values : list Q)
    (i : nat) : list Q :=
  let v := nth i vertices [] in
  let nb := neighbors_of vertices v in
  if 2 <=? length nb then
    map (fun c =>
           (Qsum (map (fun j =>
                         (nth j values 0 - nth i values 0)
                         * (nth c (nth j vertices []) 0 - nth c v 0)) nb)
            / inject_Z (Z.of_nat (length nb)))%Q)
        (seq 0 (length v))
  else repeat 0%Q (length v).

(** The row the loop writes at vertex [i] when the vertex has more than one
    neighbour. *)
Definition gradient_at (vertices : list vertex) (values : list Q) (i : nat)
  : list Q :=
  let v := nth i vertices [] in
  let nb := neighbors_of vertices v in
  np_mean_axis0
    (broadcast_mul
       (map (fun x => (x - nth i values 0)%Q)
            (map (fun j => nth j values 0%Q) nb))
       (map (fun u => vsub u v) (map (fun j => nth j vertices []) nb))).

(** Three vertices, the first two closer than the radius. *)
Definition welded_vertices : list vertex :=
  [[0; 0; 0]; [1 # 1000000; 0; 0]; [1; 1; 1]]%Q.
Definition welded_values : list Q := [0; 1; 5]%Q.

(** ** Further statements and test data *)

(** A plane vector turned by a quarter turn: [(gx, gy)] becomes
    [(-gy, gx)]. *)
Definition quarter_turn (g : list Q) : list Q :=
  [(- nth 1 g 0)%Q; nth 0 g 0%Q].

(** Rows are compared entry by entry, up to the equality of fractions. *)
Definition rows_eq (A B : list (list Q)) : Prop := Forall2 (Forall2 Qeq) A B.

(** Two gradient rows in space. *)
Definition sample_gradients : list (list Q) := [[1; 2; 3]; [4; 5; 6]]%Q.

(** A plane vector turned by a half turn: [(gx, gy)] becomes [(-gx, -gy)]. *)
Definition half_turn (g : list Q) : list Q :=
  [(- nth 0 g 0)%Q; (- nth 1 g 0)%Q].

(** The scalar product and the squared length of the plane parts of two
    rows. *)
Definition dot2 (g r : list Q) : Q :=
  (nth 0 g 0 * nth 0 r 0 + nth 1 g 0 * nth 1 r 0)%Q.

(** The stitch of vertex [i]. *)
Definition stitch_of (vertices : list vertex) (distances : list Q) (i : nat)
  : stitch :=
  mk_stitch i (nth i vertices []) (nth i distances 0%Q).

(** Two vertices whose field values are both negative. *)
Definition sunk_vertices : list vertex := [[0; 0; 0]; [1; 0; 0]]%Q.
Definition sunk_field : list Q := [-2; -1]%Q.

(** A Python index fits an array of length [n]. *)
Definition index_fits (n : nat) (b : Z) : Prop :=
  (- Z.of_nat n <= b < Z.of_nat n)%Z.

(** A run that reports success and returns its initial guess. *)
Definition converged_minimize
    (g_initial : list Q) (vertices : list vertex)
    (gradients rotated_gradients : list (list Q)) : result optimize_result :=
  Ok (mk_optimize_result g_initial true 0).

(** A solver that always raises. *)
Definition failing_minimize
    (g_initial : list Q) (vertices : list vertex)
    (gradients rotated_gradients : list (list Q)) : result optimize_result :=
  Raise ValueError.

(** A row order with an empty row, a row of one entry and a row of two. *)
Definition sample_row_order : list (list row_entry) :=
  [[]; [mk_entry 0 0 0]; [mk_entry 1 1 1; mk_entry 2 1 1]]%Q.

(** Iterations that would stop at once and report success. *)
Definition idle_lbfgsb (f : list Q -> result Q) (x0 : list Q) (f0 : Q)
  : result optimize_result :=
  Ok (mk_optimize_result x0 true 0).

(** * The functions on binary64 numbers

    Which isoline values [find_row_order] produces, which vertices a row
    holds and which vertices [compute_gradient] takes for neighbours are
    decided by comparing rounded numbers: the quotient [max / w], the
    products [k * w], the differences [d - t] and the norm are the binary64
    results of the operations the code applies.  The module embeds the two
    functions on binary64 numbers ([float], with the IEEE 754 operations
    round-to-nearest-even), array entries being [float64] as numpy builds
    them from a payload of real numbers.  A decimal literal stands for the
    nearest binary64 number, as it does in Python.  The statements that
    depend on rounding are made about these definitions. *)

Module Binary64.

Definition vertex : Type := list float.

(** ** Scalars *)

(** [(double) k] for an array position or a count [k]. *)
Definition of_index (k : nat) : float :=
  PrimFloat.of_uint63 (Uint63.of_Z (Z.of_nat k)).

(** The rational number a binary64 number stands for; an infinity and a NaN
    stand for none. *)
Definition exact (x : float) : option Q :=
  match Prim2SF x with
  | S754_zero _ => Some 0%Q
  | S754_finite s m e =>
      Some ((if s then -1 else 1) * inject_Z (Zpos m) * 2 ^ e)%Q
  | S754_infinity _ => None
  | S754_nan => None
  end.

(** [ceil], as an integer. *)
Definition ceiling (x : float) : option Z := option_map Qceiling (exact x).

(** ** find_row_order *)

(** [np.max]: the reduction starts from the first entry and, at entry [x],
    keeps the accumulator [acc] when [acc >= x] or [acc] is a NaN. *)
Definition maximum (acc x : float) : float :=
  if (x <=? acc)%float || is_nan acc then acc else x.

Definition np_max (xs : list float) : result float :=
  match xs with
  | [] => Raise ValueError
  | x :: xs' => Ok (fold_left maximum xs' x)
  end.

(** The range of an array length. *)
Definition max_intp : Z := 2 ^ 63 - 1.
Definition min_intp : Z := - 2 ^ 63.

(** The length of [np.arange(0, stop, step)]: the ceiling of the binary64
    quotient [(stop - 0) / step]; when the quotient is zero although
    [stop - 0] is not (it underflowed, or the step is infinite), one value
    for a positive zero and none for a negative one.  An undefined
    quotient (NaN), an infinite one and a ceiling outside the range of a
    length are refused. *)
Definition arange_length (stop step : float) : result nat :=
  let next := (stop - 0)%float in
  let val := (next / step)%float in
  if (val =? 0)%float && negb (next =? 0)%float
  then Ok (if get_sign val then 0 else 1)
  else
    match ceiling val with
    | None => Raise ArangeError
    | Some len =>
        if ((min_intp <=? len) && (len <=? max_intp))%Z
        then Ok (Z.to_nat len)
        else Raise ArangeError
    end.

(** The value [np.arange(0, stop, step)] has at position [k]: the start
    [0], then [0 + step], then [0 + k * delta] where [delta] is the
    difference of the first two. *)
Definition arange_value (step : float) (k : nat) : float :=
  let next := (0 + step)%float in
  match k with
  | 0 => 0%float
  | 1 => next
  | _ => (0 + of_index k * (next - 0))%float
  end.

Definition np_arange0 (stop step : float) : result (list float) :=
  len <- arange_length stop step ;;
  Ok (map (arange_value step) (seq 0 len)).

(** One entry of a row; [float(distances[i])] is [distances[i]] itself for
    a [float64] entry. *)
Record row_entry : Type := mk_entry {
  vert_index : nat;
  raw_distance : float;
  reg_distance : float
}.

(** [np.abs(d - isoline_value) < w / 2]. *)
Definition close_to (d isoline_value w : float) : bool :=
  (PrimFloat.abs (d - isoline_value) <? w / 2)%float.

(** The list comprehension building one row, from vertex [i] on. *)
Fixpoint row_loop (i : nat) (vs : list vertex) (distances : list float)
    (isoline_value w : float) : result (list row_entry) :=
  match vs with
  | [] => Ok []
  | _ :: vs' =>
      match nth_error distances i with
      | None => Raise IndexError
      | Some d =>
          rest <- row_loop (S i) vs' distances isoline_value w ;;
          Ok (if close_to d isoline_value w
              then mk_entry i d isoline_value :: rest
              else rest)
      end
  end.

(** [for isoline_value in isoline_values], with [row_order] the rows
    appended so far. *)
Fixpoint isoline_loop (isoline_values : list float) (vertices : list vertex)
    (distances : list float) (w : float) (row_order : list (list row_entry))
  : result (list (list row_entry)) :=
  match isoline_values with
  | [] => Ok row_order
  | isoline_value :: rest =>
      close_vertices <-
        mask_index vertices
          (map (fun d => close_to d isoline_value w) distances) ;;
      row <- row_loop 0 vertices distances isoline_value w ;;
      isoline_loop rest vertices distances w (row_order ++ [row])
  end.

Definition find_row_order
    (vertices : list vertex) (faces : list face) (distances : list float)
    (w : float) : result (list (list row_entry)) :=
  max_distance <- np_max distances ;;
  isoline_values <- np_arange0 max_distance w ;;
  isoline_loop isoline_values vertices distances w [].

(** The isoline values [find_row_order] iterates over. *)
Definition isoline_values_of (distances : list float) (w : float)
  : result (list float) :=
  max_distance <- np_max distances ;;
  np_arange0 max_distance w.

(** ** compute_gradient *)

(** Row arithmetic of numpy, component by component. *)
Definition vsub (u v : list float) : list float :=
  map (fun p => (fst p - snd p)%float) (combine u v).

Definition vadd (u v : list float) : list float :=
  map (fun p => (fst p + snd p)%float) (combine u v).

Definition vscale (c : float) (u : list float) : list float :=
  map (fun a => (c * a)%float) u.

(** [np.linalg.norm(r)] of one row: [sqrt(add.reduce(r * r))], the squares
    added one after the other from [0] on.  (From eight columns on numpy
    adds in blocks; the rows of a mesh have three.) *)
Definition norm (r : list float) : float :=
  PrimFloat.sqrt
    (fold_left PrimFloat.add (map (fun a => (a * a)%float) r) 0%float).

(** The neighbourhood radius: the binary64 number the literal [1e-5]
    denotes. *)
Definition radius : float := 0x1.4f8b588e368f1p-17%float.

(** [np.linalg.norm(u - v) < 1e-5]. *)
Definition near (u v : list float) : bool :=
  (norm (vsub u v) <? radius)%float.

(** [np.mean(rows, axis=0)]: the rows added one after the other to a row
    of zeros, then every column sum divided by the number of rows.  (That
    is the order of the additions for rows of two columns or more.) *)
Definition np_mean_axis0 (rows : list (list float)) : list float :=
  match rows with
  | [] => []
  | r :: _ =>
      map (fun s => (s / of_index (length rows))%float)
          (fold_left vadd rows (repeat 0%float (length r)))
  end.

(** [np.zeros_like(vertices)]. *)
Definition zeros_like (vertices : list vertex) : list (list float) :=
  map (fun v => repeat 0%float (length v)) vertices.

(** [value_deltas[:, np.newaxis] * deltas]. *)
Definition broadcast_mul (value_deltas : list float)
    (deltas : list (list float)) : list (list float) :=
  map (fun p => vscale (fst p) (snd p)) (combine value_deltas deltas).

(** [np.where(np.linalg.norm(vertices - v, axis=1) < 1e-5)[0]]. *)
Definition neighbors_at (vertices : list vertex) (v : vertex) : list nat :=
  np_where (map (fun u => near u v) vertices).

(** The body of [for i, v in enumerate(vertices)]; [todo] holds the vertices
    still to visit and [gradients] the array as updated so far. *)
Fixpoint gradient_loop (i : nat) (todo : list vertex)
    (vertices : list vertex) (values : list float)
    (gradients : list (list float)) : result (list (list float)) :=
  match todo with
  | [] => Ok gradients
  | v :: todo' =>
      let neighbors := neighbors_at vertices v in
      if 1 <? length neighbors then
        nv <- take vertices neighbors ;;
        let deltas := map (fun u => vsub u v) nv in
        vals <- take values neighbors ;;
        vi <- item values i ;;
        let value_deltas := map (fun a => (a - vi)%float) vals in
        let g := np_mean_axis0 (broadcast_mul value_deltas deltas) in
        gradient_loop (S i) todo' vertices values (set_row i g gradients)
      else gradient_loop (S i) todo' vertices values gradients
  end.

Definition compute_gradient (vertices : list vertex) (values : list float)
  : result (list (list float)) :=
  gradient_loop 0 vertices vertices values (zeros_like vertices).

(** ** Statements and test data on binary64 numbers *)

(** The entries of the row of isoline value [t] among the vertices
    [a, a+1, ..., a+n-1]. *)
Definition row_from (distances : list float) (a n : nat) (t w : float)
  : list row_entry :=
  map (fun i => mk_entry i (nth i distances 0%float) t)
      (filter (fun i => close_to (nth i distances 0%float) t w) (seq a n)).

(** [k * w < m], once with the product and the comparison of binary64 and
    once between the numbers the three stand for. *)
Definition below_rounded (k : nat) (w m : float) : Prop :=
  (of_index k * w <? m)%float = true.

Definition below_exact (k : nat) (w m : float) : Prop :=
  match exact w, exact m with
  | Some qw, Some qm => (inject_Z (Z.of_nat k) * qw < qm)%Q
  | _, _ => False
  end.

(** The number of buckets as the specification words it: bucket [k] exists
    exactly while [k * w < max(field)]. *)
Definition buckets_as_specified (below : nat -> float -> float -> Prop)
  : Prop :=
  forall (vertices : list vertex) (faces : list face)
         (distances : list float) (w m : float),
    (0 <? w)%float = true ->
    length distances = length vertices ->
    np_max distances = Ok m ->
    exists rows,
      find_row_order vertices faces distances w = Ok rows
      /\ forall k, k < length rows <-> below k w m.

(** Two vertices, the field rising from [0] to [3.87], and the spacing of
    the driver. *)
Definition ridge_vertices : list vertex := [[0; 0; 0]; [1; 0; 0]]%float.
Definition ridge_field : list float := [0; 3.87]%float.
Definition driver_spacing : float := 0.03%float.

(** Coverage as the specification words it: every vertex whose field value
    is below the maximum is in at least one bucket. *)
Definition coverage_as_specified : Prop :=
  forall (vertices : list vertex) (faces : list face)
         (distances : list float) (w m : float) (v : nat),
    (0 <? w)%float = true ->
    length distances = length vertices ->
    np_max distances = Ok m ->
    v < length vertices ->
    (nth v distances 0 <? m)%float = true ->
    exists rows row,
      find_row_order vertices faces distances w = Ok rows
      /\ In row rows /\ In v (map vert_index row).

(** Three vertices on a line with field values [0], [1.75] and [2]. *)
Definition gap_vertices : list vertex :=
  [[0; 0; 0]; [1; 0; 0]; [2; 0; 0]]%float.
Definition gap_field : list float := [0; 1.75; 2]%float.

(** The distance between two positions, as the specification words it: the
    square root of the sum of the squared differences of the coordinates,
    each operation being the one of binary64. *)
Definition distance (u v : list float) : float :=
  PrimFloat.sqrt
    (fold_left (fun acc p => (acc + (fst p - snd p) * (fst p - snd p))%float)
               (combine u v) 0%float).

(** The neighbours of a position, as the specification words them: the
    vertices whose distance from it is below [1e-5]. *)
Definition neighbors_of (vertices : list vertex) (v : vertex) : list nat :=
  filter (fun j => (distance (nth j vertices []) v <? radius)%float)
         (seq 0 (length vertices)).

(** The sum of a list of scalars, added one after the other. *)
Definition sum (l : list float) : float := fold_left PrimFloat.add l 0%float.

(** The gradient at vertex [i], as the specification words it: coordinate by
    coordinate, the mean over the neighbours of
    [(field[neighbor] - field[i]) * (position[neighbor] - position[i])] when
    there are at least two neighbours, and zero otherwise. *)
Definition gradient_formula (vertices : list vertex) (values : list float)
    (i : nat) : list float :=
  let v := nth i vertices [] in
  let nb := neighbors_of vertices v in
  if 2 <=? length nb then
    map (fun c =>
           (sum (map (fun j =>
                        (nth j values 0 - nth i values 0)
                        * (nth c (nth j vertices []) 0 - nth c v 0)) nb)
            / of_index (length nb))%float)
        (seq 0 (length v))
  else repeat 0%float (length v).

(** The row the loop writes at vertex [i] when the vertex has more than one
    neighbour. *)
Definition gradient_at (vertices : list vertex) (values : list float)
    (i : nat) : list float :=
  let v := nth i vertices [] in
  let nb := neighbors_at vertices v in
  np_mean_axis0
    (broadcast_mul
       (map (fun a => (a - nth i values 0)%float)
            (map (fun j => nth j values 0%float) nb))
       (map (fun u => vsub u v) (map (fun j => nth j vertices []) nb))).

(** Three vertices, the first two closer than the radius. *)
Definition welded_vertices : list vertex :=
  [[0; 0; 0]; [1e-6; 0; 0]; [1; 1; 1]]%float.
Definition welded_values : list float := [0; 1; 5]%float.

(** Three vertices far from one another. *)
Definition spread_vertices : list vertex :=
  [[0; 0; 0]; [1; 0; 0]; [0; 1; 0]]%float.

End Binary64.

(** * Properties *)

(** ** Scalar comparisons *)

(** Linear arithmetic on scalars once the halves [_ / 2] are written as
    products. *)
Ltac halves :=
  unfold Qdiv in *; change (/ 2)%Q with (1 # 2)%Q in *; lra.

Lemma Qltb_lt (a b : Q) : Qltb a b = true <-> (a < b)%Q.
Proof.
  unfold Qltb. rewrite negb_true_iff. split.
  - intro H. apply Qnot_le_lt. intro Hle.
    apply Qle_bool_iff in Hle. congruence.
  - intro H. destruct (Qle_bool b a) eqn:E; [|reflexivity].
    apply Qle_bool_iff in E. exfalso. exact (Qlt_not_le _ _ H E).
Qed.

Lemma Qle_bool_false (a b : Q) : Qle_bool a b = false -> (b < a)%Q.
Proof.
  intro H. apply Qnot_le_lt. intro Hle.
  apply Qle_bool_iff in Hle. congruence.
Qed.

(** ** The stitch loop *)

Lemma stitch_loop_from (vs : list vertex) :
  forall i distances re ins,
    1 <= i -> i + length vs <= length distances ->
    exists sts,
      stitch_loop i vs distances re ins
        = Ok (re ++ map seq_edge (seq i (length vs)), ins ++ sts)
      /\ map vertex_index sts = seq i (length vs).
Proof.
  induction vs as [|v vs IH]; intros i distances re ins Hi Hlen; simpl in *.
  - exists []. now rewrite !app_nil_r.
  - destruct (nth_error distances i) as [d|] eqn:E.
    + destruct (IH (S i) distances (re ++ [(i - 1, i)])
                  (ins ++ [mk_stitch i v d])) as [sts [Hrun Hidx]];
        [lia | lia |].
      exists (mk_stitch i v d :: sts). split.
      * replace (0 <? i) with true by (symmetry; apply Nat.ltb_lt; lia).
        rewrite Hrun, <- !app_assoc. reflexivity.
      * simpl. now rewrite Hidx.
    + apply nth_error_None in E. lia.
Qed.

Lemma stitch_loop_all (vs : list vertex) (distances : list Q) :
  length vs <= length distances ->
  exists sts,
    stitch_loop 0 vs distances [] []
      = Ok (map seq_edge (seq 1 (length vs - 1)), sts)
    /\ map vertex_index sts = seq 0 (length vs).
Proof.
  destruct vs as [|v vs]; intro Hlen.
  - exists []. split; reflexivity.
  - destruct distances as [|d ds]; [simpl in Hlen; lia|].
    destruct (stitch_loop_from vs (i := 1) (d :: ds) [] [mk_stitch 0 v d])
      as [sts [Hrun Hidx]]; [lia | simpl in *; lia |].
    exists (mk_stitch 0 v d :: sts). split.
    + cbn [stitch_loop nth_error Nat.ltb Nat.leb app length].
      rewrite Hrun, Nat.sub_succ, Nat.sub_0_r. reflexivity.
    + cbn [map vertex_index seq length]. now rewrite Hidx.
Qed.

Lemma form_columns_seq (n a : nat) :
  form_columns (map seq_edge (seq (S a) (S n))) = map self_loop (seq (S a) n).
Proof.
  unfold form_columns. revert a.
  induction n as [|n IH]; intro a.
  - reflexivity.
  - specialize (IH (S a)).
    change (seq (S a) (S (S n))) with (S a :: seq (S (S a)) (S n)).
    change (seq (S a) (S n)) with (S a :: seq (S (S a)) n).
    remember (seq (S (S a)) (S n)) as l eqn:El.
    destruct l as [|y l']; [discriminate|].
    assert (Hy : y = S (S a)) by (simpl in El; congruence).
    cbn [map tl] in *.
    change (removelast (seq_edge (S a) :: seq_edge y :: map seq_edge l'))
      with (seq_edge (S a) :: removelast (seq_edge y :: map seq_edge l')).
    cbn [combine map]. rewrite IH. subst y. reflexivity.
Qed.

Lemma form_columns_edges (n : nat) :
  form_columns (map seq_edge (seq 1 n)) = map self_loop (seq 1 (n - 1)).
Proof.
  destruct n as [|n].
  - reflexivity.
  - rewrite form_columns_seq. now rewrite Nat.sub_succ, Nat.sub_0_r.
Qed.

(** What [generate_crochet_pattern] returns, for every input on which the
    loop can read its distances. *)
Lemma generate_crochet_pattern_returns
    (vertices : list vertex) (faces : list face) (distances : list Q) :
  distances <> [] -> length vertices <= length distances ->
  exists seed sts,
    np_argmin distances = Ok seed
    /\ map vertex_index sts = seq 0 (length vertices)
    /\ generate_crochet_pattern vertices faces distances
       = Ok (mk_pattern seed
               (map seq_edge (seq 1 (length vertices - 1)))
               (map self_loop (seq 1 (length vertices - 1 - 1)))
               sts).
Proof.
  intros Hne Hlen.
  destruct distances as [|d0 ds]; [congruence|].
  destruct (stitch_loop_all vertices (d0 :: ds) Hlen) as [sts [Hrun Hidx]].
  exists (argmin_from d0 0 1 ds), sts. repeat split; [assumption|].
  unfold generate_crochet_pattern. cbn [np_argmin np_argmax bind].
  rewrite Hrun. cbn [bind fst snd]. now rewrite form_columns_edges.
Qed.

(** ** The seed vertex *)

Lemma skipn_cons_inv {A : Type} (default : A) (d : list A) :
  forall i y ys,
    skipn i d = y :: ys ->
    nth i d default = y /\ skipn (S i) d = ys /\ i < length d.
Proof.
  induction d as [|a d IH]; intros i y ys H.
  - destruct i; discriminate.
  - destruct i as [|i].
    + simpl in H. injection H as -> ->. simpl. repeat split. lia.
    + simpl in H. destruct (IH _ _ _ H) as [H1 [H2 H3]].
      cbn [nth length]. repeat split; [assumption | assumption | lia].
Qed.

Lemma skipn_nil_inv {A : Type} (d : list A) :
  forall i, skipn i d = [] -> length d <= i.
Proof.
  induction d as [|a d IH]; intros i H.
  - simpl. lia.
  - destruct i as [|i]; [discriminate|].
    simpl in *. apply IH in H. lia.
Qed.

(** The scan of [np.argmin], with the part of the array already read as the
    invariant: [mp] sits at [mi], nothing read so far is below it and nothing
    before [mi] equals it. *)
Lemma argmin_from_min (xs : list Q) :
  forall d mp mi i,
    skipn i d = xs -> mi < i -> mi < length d ->
    nth mi d 0%Q = mp ->
    (forall j, j < i -> (mp <= nth j d 0)%Q) ->
    (forall j, j < mi -> (mp < nth j d 0)%Q) ->
    let s := argmin_from mp mi i xs in
    s < length d
    /\ (forall j, j < length d -> (nth s d 0 <= nth j d 0)%Q)
    /\ (forall j, j < s -> (nth s d 0 < nth j d 0)%Q).
Proof.
  induction xs as [|y ys IH];
    intros d mp mi i Hskip Hmi Hmid Hmp Hle Hlt; simpl.
  - apply skipn_nil_inv in Hskip. subst mp. repeat split.
    + assumption.
    + intros j Hj. apply Hle. lia.
    + assumption.
  - destruct (skipn_cons_inv 0%Q _ _ Hskip) as [Hy [Hskip' Hi]].
    destruct (Qle_bool mp y) eqn:E.
    + apply IH; try assumption; [lia|].
      intros j Hj. destruct (Nat.eq_dec j i) as [->|Hne].
      * rewrite Hy. now apply Qle_bool_iff.
      * apply Hle. lia.
    + apply Qle_bool_false in E.
      apply IH; try assumption; [lia | |].
      * intros j Hj. destruct (Nat.eq_dec j i) as [->|Hne].
        -- rewrite Hy. apply Qle_refl.
        -- apply Qlt_le_weak. eapply Qlt_le_trans; [exact E|].
           apply Hle. lia.
      * intros j Hj. eapply Qlt_le_trans; [exact E|]. apply Hle. lia.
Qed.

Lemma np_argmin_first (d : list Q) :
  d <> [] -> exists s, np_argmin d = Ok s /\ first_argmin d s.
Proof.
  destruct d as [|d0 ds]; [congruence|]. intros _.
  exists (argmin_from d0 0 1 ds). split; [reflexivity|].
  apply (@argmin_from_min ds (d0 :: ds) d0 0 1).
  - reflexivity.
  - lia.
  - simpl. lia.
  - reflexivity.
  - intros j Hj. replace j with 0 by lia. apply Qle_refl.
  - intros j Hj. lia.
Qed.

(** C1: for a mesh of [N >= 2] vertices and a field of length [N],
    [generate_crochet_pattern] returns a pattern with exactly [N] stitches,
    [N - 1] row edges and [N - 2] column edges, so that
    [len(row_edges) = len(stitches) - 1] and
    [len(col_edges) = len(row_edges) - 1]. *)
Theorem edge_count_invariant
    (vertices : list vertex) (faces : list face) (distances : list Q) :
  2 <= length vertices -> length distances = length vertices ->
  exists p,
    generate_crochet_pattern vertices faces distances = Ok p
    /\ length (stitches p) = length vertices
    /\ length (row_edges p) = length vertices - 1
    /\ length (col_edges p) = length vertices - 2
    /\ length (row_edges p) = length (stitches p) - 1
    /\ length (col_edges p) = length (row_edges p) - 1.
Proof.
  intros HN Hlen.
  destruct (generate_crochet_pattern_returns vertices faces (distances := distances))
    as [seed [sts [_ [Hidx Hrun]]]].
  - intro E. rewrite E in Hlen. simpl in Hlen. lia.
  - lia.
  - eexists. split; [exact Hrun|]. cbn [stitches row_edges col_edges].
    assert (Hs : length sts = length vertices).
    { rewrite <- (length_map vertex_index), Hidx. apply length_seq. }
    rewrite !length_map, !length_seq, Hs. repeat split; lia.
Qed.

Lemma edge_count_invariant_witness :
  exists p,
    generate_crochet_pattern unit_square unit_square_faces unit_square_field
      = Ok p
    /\ length (stitches p) = length unit_square
    /\ length (row_edges p) = length unit_square - 1
    /\ length (col_edges p) = length unit_square - 2
    /\ length (row_edges p) = length (stitches p) - 1
    /\ length (col_edges p) = length (row_edges p) - 1.
Proof.
  apply edge_count_invariant; simpl; lia.
Defined.

(** C2: for a non-empty field, the [seed_vertex] of the returned pattern is
    the index of the least field value, the lowest such index when the least
    value occurs several times. *)
Theorem seed_is_first_argmin
    (vertices : list vertex) (faces : list face) (distances : list Q) :
  distances <> [] -> length vertices <= length distances ->
  exists p,
    generate_crochet_pattern vertices faces distances = Ok p
    /\ first_argmin distances (seed_vertex p).
Proof.
  intros Hne Hlen.
  destruct (generate_crochet_pattern_returns vertices faces Hne Hlen)
    as [seed [sts [Hseed [_ Hrun]]]].
  eexists. split; [exact Hrun|]. cbn [seed_vertex].
  destruct (np_argmin_first Hne) as [s [Hs Hfirst]].
  congruence.
Qed.

Lemma seed_is_first_argmin_witness :
  exists p,
    generate_crochet_pattern unit_square unit_square_faces tied_field = Ok p
    /\ first_argmin tied_field (seed_vertex p).
Proof.
  apply seed_is_first_argmin; [discriminate | simpl; lia].
Defined.

(** C9: for a mesh of [N >= 3] vertices the column edges are the self-loops
    [(1,1), (2,2), ..., (N-2,N-2)]: both ends of every column edge
    coincide. *)
Theorem col_edges_self_loops
    (vertices : list vertex) (faces : list face) (distances : list Q) :
  3 <= length vertices -> length distances = length vertices ->
  exists p,
    generate_crochet_pattern vertices faces distances = Ok p
    /\ col_edges p = map (fun j => (j, j)) (seq 1 (length vertices - 2))
    /\ (forall a b, In (a, b) (col_edges p) -> a = b).
Proof.
  intros HN Hlen.
  destruct (generate_crochet_pattern_returns vertices faces (distances := distances))
    as [seed [sts [_ [_ Hrun]]]].
  - intro E. rewrite E in Hlen. simpl in Hlen. lia.
  - lia.
  - eexists. split; [exact Hrun|]. cbn [col_edges].
    replace (length vertices - 1 - 1) with (length vertices - 2) by lia.
    split; [reflexivity|].
    intros a b Hin. apply in_map_iff in Hin.
    destruct Hin as [j [Hj _]]. unfold self_loop in Hj. congruence.
Qed.

Lemma col_edges_self_loops_witness :
  exists p,
    generate_crochet_pattern unit_square unit_square_faces unit_square_field
      = Ok p
    /\ col_edges p = map (fun j => (j, j)) (seq 1 (length unit_square - 2))
    /\ (forall a b, In (a, b) (col_edges p) -> a = b).
Proof.
  apply col_edges_self_loops; simpl; lia.
Defined.

(** C10: neither [generate_crochet_pattern] nor [find_row_order] depends on
    its [faces] argument. *)
Theorem faces_are_ignored
    (vertices : list vertex) (faces1 faces2 : list face)
    (distances : list Q) (w : Q) :
  generate_crochet_pattern vertices faces1 distances
    = generate_crochet_pattern vertices faces2 distances
  /\ find_row_order vertices faces1 distances w
     = find_row_order vertices faces2 distances w.
Proof.
  split; reflexivity.
Qed.

(** ** The isoline values *)







(** ** The rows and the tolerance test *)

Lemma filter_seq_sorted (p : nat -> bool) (n : nat) :
  forall a, StronglySorted lt (filter p (seq a n)).
Proof.
  induction n as [|n IH]; intro a.
  - constructor.
  - cbn [seq filter]. destruct (p a); [|apply IH].
    constructor; [apply IH|].
    apply Forall_forall. intros y Hy.
    apply filter_In in Hy. destruct Hy as [Hy _].
    apply in_seq in Hy. lia.
Qed.

Lemma close_to_iff (d t w : Q) :
  close_to d t w = true <-> (Qabs (d - t) < w / 2)%Q.
Proof. apply Qltb_lt. Qed.

(** ** The concrete scenario *)

(** C5, as stated, does not hold: on the unit square with field [0,1,1,2]
    and [w = 0.5] the isoline values are four, not two. *)
Lemma scenario_has_four_isolines : ~ scenario_as_specified.
Proof.
  intros [ts [rows [p [Hts [Hval _]]]]].
  vm_compute in Hts. injection Hts as <-.
  apply Forall2_length in Hval. discriminate.
Qed.

(** C5, amended: on the unit square with field [0,1,1,2] and [w = 0.5] the
    isoline values are [0, 0.5, 1, 1.5]; the bucket of [0] holds vertex [0]
    only, the bucket of [0.5] is empty, the bucket of [1] holds vertices [1]
    and [2], the bucket of [1.5] is empty; the seed vertex is [0]. *)
Theorem scenario_unit_square :
  exists ts rows p,
    isoline_values_of unit_square_field (1 # 2) = Ok ts
    /\ Forall2 Qeq ts [0; 1 # 2; 1; 3 # 2]%Q
    /\ find_row_order unit_square unit_square_faces unit_square_field (1 # 2)
       = Ok rows
    /\ map (map vert_index) rows = [[0]; []; [1; 2]; []]
    /\ generate_crochet_pattern unit_square unit_square_faces unit_square_field
       = Ok p
    /\ seed_vertex p = 0.
Proof.
  do 3 eexists.
  split; [vm_compute; reflexivity|].
  split; [repeat constructor|].
  split; [vm_compute; reflexivity|].
  split; [reflexivity|].
  split; [vm_compute; reflexivity|].
  reflexivity.
Qed.

(** ** Non-positive spacing *)





(** ** The gradient estimate *)

Lemma where_from_filter {A : Type} (p : A -> bool) (default : A) (l : list A) :
  forall a,
    where_from a (map p l)
    = filter (fun j => p (nth (j - a) l default)) (seq a (length l)).
Proof.
  induction l as [|y l IH]; intro a.
  - reflexivity.
  - assert (E : filter (fun j => p (nth (j - a) (y :: l) default))
                       (seq (S a) (length l))
                = filter (fun j => p (nth (j - S a) l default))
                         (seq (S a) (length l))).
    { apply filter_ext_in. intros j Hj. apply in_seq in Hj.
      replace (j - a) with (S (j - S a)) by lia. reflexivity. }
    cbn [map where_from length seq filter].
    rewrite E, IH, Nat.sub_diag. reflexivity.
Qed.

Lemma np_where_neighbors (vertices : list vertex) (v : vertex) :
  np_where (map (fun u => near u v) vertices) = neighbors_of vertices v.
Proof.
  unfold np_where, neighbors_of.
  rewrite (where_from_filter (fun u => near u v) []).
  apply filter_ext. intro j. now rewrite Nat.sub_0_r.
Qed.

Lemma neighbors_in_range (vertices : list vertex) (v : vertex) :
  Forall (fun j => j < length vertices) (neighbors_of vertices v).
Proof.
  apply Forall_forall. intros j Hj. unfold neighbors_of in Hj.
  apply filter_In in Hj. destruct Hj as [Hj _]. apply in_seq in Hj. lia.
Qed.

Lemma take_in_range {A : Type} (default : A) (a : list A) (idx : list nat) :
  Forall (fun j => j < length a) idx ->
  take a idx = Ok (map (fun j => nth j a default) idx).
Proof.
  induction 1 as [|j idx Hj _ IH].
  - reflexivity.
  - cbn [take map]. rewrite (nth_error_nth' a default Hj), IH. reflexivity.
Qed.

Lemma set_row_length {A : Type} (g : A) (G : list A) :
  forall i, length (set_row i g G) = length G.
Proof.
  induction G as [|y G IH]; intros [|i]; simpl; auto.
Qed.

Lemma set_row_same {A : Type} (default g : A) (G : list A) :
  forall i, i < length G -> nth i (set_row i g G) default = g.
Proof.
  induction G as [|y G IH]; intros [|i] Hi; simpl in *; try lia.
  - reflexivity.
  - apply IH. lia.
Qed.

Lemma set_row_other {A : Type} (default g : A) (G : list A) :
  forall i j, i <> j -> nth j (set_row i g G) default = nth j G default.
Proof.
  induction G as [|y G IH]; intros [|i] [|j] Hij; simpl; try reflexivity.
  - congruence.
  - apply IH. congruence.
Qed.

(** Rows, component by component. *)

Lemma vadd_length (u : list Q) :
  forall v, length u = length v -> length (vadd u v) = length u.
Proof.
  intros v H. unfold vadd. rewrite length_map, length_combine. lia.
Qed.

Lemma vsub_length (u : list Q) :
  forall v, length u = length v -> length (vsub u v) = length u.
Proof.
  intros v H. unfold vsub. rewrite length_map, length_combine. lia.
Qed.

Lemma vscale_length (a : Q) (u : list Q) : length (vscale a u) = length u.
Proof. apply length_map. Qed.

Lemma vadd_nth (u : list Q) :
  forall v c, length u = length v ->
    (nth c (vadd u v) 0 == nth c u 0 + nth c v 0)%Q.
Proof.
  induction u as [|a u IH]; intros [|b v] c H; try discriminate.
  - destruct c; simpl; ring.
  - destruct c as [|c]; [simpl; ring|].
    apply (IH v c). simpl in H. lia.
Qed.

Lemma vsub_nth (u : list Q) :
  forall v c, length u = length v ->
    (nth c (vsub u v) 0 == nth c u 0 - nth c v 0)%Q.
Proof.
  induction u as [|a u IH]; intros [|b v] c H; try discriminate.
  - destruct c; simpl; ring.
  - destruct c as [|c]; [simpl; ring|].
    apply (IH v c). simpl in H. lia.
Qed.

Lemma vscale_nth (a : Q) (u : list Q) :
  forall c, (nth c (vscale a u) 0 == a * nth c u 0)%Q.
Proof.
  induction u as [|b u IH]; intros [|c]; simpl; try ring.
  apply IH.
Qed.

Lemma fold_vadd_columns (dim : nat) (rs : list (list Q)) :
  forall r,
    length r = dim -> Forall (fun row => length row = dim) rs ->
    length (fold_left vadd rs r) = dim
    /\ forall c,
         (nth c (fold_left vadd rs r) 0
          == nth c r 0 + Qsum (map (fun row => nth c row 0) rs))%Q.
Proof.
  induction rs as [|s rs IH]; intros r Hr Hrs.
  - split; [assumption|]. intro c. simpl. ring.
  - pose proof (Forall_inv Hrs) as Hs. cbv beta in Hs.
    pose proof (Forall_inv_tail Hrs) as Hrs'.
    destruct (IH (vadd r s)) as [Hlen Hcol]; [|assumption|].
    + rewrite vadd_length; congruence.
    + split; [exact Hlen|]. intro c. cbn [fold_left map Qsum fold_right].
      rewrite Hcol, vadd_nth by congruence.
      unfold Qsum. ring.
Qed.

Lemma np_mean_axis0_columns (dim : nat) (rows : list (list Q)) :
  rows <> [] -> Forall (fun row => length row = dim) rows ->
  length (np_mean_axis0 rows) = dim
  /\ forall c, c < dim ->
       (nth c (np_mean_axis0 rows) 0
        == Qsum (map (fun row => nth c row 0) rows)
           / inject_Z (Z.of_nat (length rows)))%Q.
Proof.
  destruct rows as [|r rs]; [congruence|]. intros _ Hall.
  pose proof (Forall_inv Hall) as Hr. cbv beta in Hr.
  pose proof (Forall_inv_tail Hall) as Hrs.
  destruct (@fold_vadd_columns dim rs r Hr Hrs) as [Hlen Hcol].
  unfold np_mean_axis0. rewrite length_map. split; [exact Hlen|].
  intros c Hc.
  set (n := inject_Z (Z.of_nat (length (r :: rs)))).
  rewrite (nth_indep _ 0%Q ((fun s => s / n) 0)%Q)
    by (rewrite length_map; lia).
  rewrite (map_nth (fun s => (s / n)%Q)).
  rewrite Hcol. cbn [map Qsum fold_right]. reflexivity.
Qed.

Lemma Qsum_ext {A : Type} (f g : A -> Q) (l : list A) :
  (forall a, In a l -> (f a == g a)%Q) ->
  (Qsum (map f l) == Qsum (map g l))%Q.
Proof.
  induction l as [|a l IH]; intro H.
  - reflexivity.
  - cbn [map Qsum fold_right].
    rewrite (H a) by now left.
    unfold Qsum in IH. rewrite IH; [reflexivity|].
    intros b Hb. apply H. now right.
Qed.

Lemma combine_map_same {A B C : Type} (f : A -> B) (g : A -> C) (l : list A) :
  combine (map f l) (map g l) = map (fun a => (f a, g a)) l.
Proof.
  induction l as [|a l IH]; simpl; [reflexivity | now rewrite IH].
Qed.

Lemma Forall2_Qeq_nth (l1 : list Q) :
  forall l2,
    length l1 = length l2 ->
    (forall c, c < length l1 -> (nth c l1 0 == nth c l2 0)%Q) ->
    Forall2 Qeq l1 l2.
Proof.
  induction l1 as [|a l1 IH]; intros [|b l2] Hlen H; try discriminate.
  - constructor.
  - constructor.
    + apply (H 0). simpl. lia.
    + apply IH; [simpl in Hlen; lia|].
      intros c Hc. apply (H (S c)). simpl. lia.
Qed.

Lemma gradient_at_formula
    (dim : nat) (vertices : list vertex) (values : list Q) (i : nat) :
  Forall (fun v => length v = dim) vertices ->
  i < length vertices ->
  2 <= length (neighbors_of vertices (nth i vertices [])) ->
  Forall2 Qeq (gradient_at vertices values i)
              (gradient_formula vertices values i).
Proof.
  intros Hdim Hi Hnb.
  assert (Hrow : forall j, j < length vertices ->
                           length (nth j vertices []) = dim).
  { intros j Hj. rewrite Forall_forall in Hdim. apply Hdim.
    now apply nth_In. }
  unfold gradient_formula, gradient_at.
  set (v := nth i vertices []) in *.
  set (nb := neighbors_of vertices v) in *.
  assert (Hv : length v = dim) by now apply Hrow.
  apply Nat.leb_le in Hnb as Hnb'. rewrite Hnb'.
  rewrite !map_map. unfold broadcast_mul. rewrite combine_map_same, map_map.
  cbn [fst snd].
  set (row := fun j =>
                vscale (nth j values 0 - nth i values 0)%Q
                       (vsub (nth j vertices []) v)).
  assert (Hin : forall j, In j nb -> j < length vertices).
  { intros j Hj. pose proof (neighbors_in_range vertices v) as H.
    rewrite Forall_forall in H. now apply H. }
  assert (Hall : Forall (fun r => length r = dim) (map row nb)).
  { apply Forall_forall. intros r Hr. apply in_map_iff in Hr.
    destruct Hr as [j [<- Hj]]. unfold row.
    rewrite vscale_length, vsub_length; rewrite Hrow; auto. }
  assert (Hne : map row nb <> []).
  { destruct nb; [simpl in Hnb; lia | discriminate]. }
  destruct (np_mean_axis0_columns Hne Hall) as [Hlen Hcol].
  apply Forall2_Qeq_nth.
  - rewrite Hlen, length_map, length_seq. congruence.
  - rewrite Hlen. intros c Hc.
    rewrite Hcol by assumption. rewrite map_map, length_map.
    set (n := inject_Z (Z.of_nat (length nb))).
    set (F := fun c0 : nat => (_ / n)%Q).
    rewrite (nth_indep _ 0%Q (F 0)) by (rewrite length_map, length_seq; lia).
    rewrite (map_nth F), seq_nth by lia. unfold F. cbn [plus].
    apply Qdiv_comp; [|reflexivity].
    apply Qsum_ext. intros j Hj. unfold row.
    rewrite vscale_nth, vsub_nth; [reflexivity|].
    rewrite Hrow; auto.
Qed.

(** The loop of [compute_gradient]: every iteration writes row [i] only, and
    only when vertex [i] has more than one neighbour. *)
Lemma gradient_loop_run (vertices : list vertex) (values : list Q) :
  length values = length vertices ->
  forall todo i G,
    skipn i vertices = todo -> length G = length vertices ->
    exists G',
      gradient_loop i todo vertices values G = Ok G'
      /\ length G' = length vertices
      /\ (forall j, j < i -> nth j G' [] = nth j G [])
      /\ (forall j, i <= j < length vertices ->
            nth j G' []
            = if 1 <? length (neighbors_of vertices (nth j vertices []))
              then gradient_at vertices values j
              else nth j G []).
Proof.
  intros Hval todo.
  induction todo as [|v todo IH]; intros i G Hskip HG.
  - apply skipn_nil_inv in Hskip.
    exists G. repeat split; try assumption; intros; lia.
  - destruct (skipn_cons_inv ([] : vertex) _ _ Hskip) as [Hv [Hskip' Hi]].
    cbn [gradient_loop]. rewrite np_where_neighbors.
    destruct (1 <? length (neighbors_of vertices v)) eqn:Enb.
    + rewrite (@take_in_range vertex [] vertices (neighbors_of vertices v)
                 (neighbors_in_range vertices v)).
      cbn [bind].
      rewrite (@take_in_range Q 0%Q values (neighbors_of vertices v))
        by (rewrite Hval; apply neighbors_in_range).
      cbn [bind]. unfold item.
      rewrite (nth_error_nth' values 0%Q) by lia. cbn [bind].
      set (g := np_mean_axis0 _).
      assert (Eg : g = gradient_at vertices values i).
      { unfold g, gradient_at. rewrite Hv. reflexivity. }
      destruct (IH (S i) (set_row i g G) Hskip') as [G' [Hrun [Hlen [Hlo Hhi]]]].
      { now rewrite set_row_length. }
      exists G'. split; [exact Hrun|]. split; [exact Hlen|]. split.
      * intros j Hj. rewrite Hlo by lia. apply set_row_other. lia.
      * intros j Hj. destruct (Nat.eq_dec j i) as [->|Hne].
        -- rewrite Hlo by lia. rewrite Hv, Enb.
           rewrite set_row_same by lia. exact Eg.
        -- rewrite Hhi by lia. rewrite set_row_other by lia. reflexivity.
    + destruct (IH (S i) G Hskip' HG) as [G' [Hrun [Hlen [Hlo Hhi]]]].
      exists G'. split; [exact Hrun|]. split; [exact Hlen|]. split.
      * intros j Hj. apply Hlo. lia.
      * intros j Hj. destruct (Nat.eq_dec j i) as [->|Hne].
        -- rewrite Hlo by lia. rewrite Hv, Enb. reflexivity.
        -- apply Hhi. lia.
Qed.

(** * Further properties of the code *)

(** ** rotated_gradient *)

(** The row [np.dot] computes from [(gx, gy)] and [J.T], term by term. *)
Lemma dot_row_quarter_turn (g : list Q) :
  2 <= length g ->
  exists r,
    dot_row 2 (firstn 2 g) (transpose 2 J) = Ok r
    /\ Forall2 Qeq r (quarter_turn g).
Proof.
  intro Hg.
  destruct g as [|gx [|gy g]]; simpl in Hg; try lia.
  eexists. split; [reflexivity|].
  unfold quarter_turn. cbn.
  constructor; [ring|]. constructor; [ring|]. constructor.
Qed.

Lemma rotated_gradient_run (gradients : list (list Q)) :
  Forall (fun g => 2 <= length g) gradients ->
  exists R,
    rotated_gradient gradients = Ok R
    /\ rows_eq R (map quarter_turn gradients).
Proof.
  unfold rotated_gradient, rows_eq.
  induction 1 as [|g gradients Hg _ IH].
  - exists []. split; [reflexivity | constructor].
  - destruct (@dot_row_quarter_turn g Hg) as [r [Hr Hrq]].
    destruct IH as [R [HR HRq]].
    exists (r :: R). cbn [map np_dot]. rewrite Hr. cbn [bind].
    rewrite HR. cbn [bind]. split; [reflexivity|].
    constructor; assumption.
Qed.

(** X1: when every gradient row has at least two columns,
    [rotated_gradient] returns one row per gradient, the row of [(gx, gy,
    ...)] being [(-gy, gx)]. *)
Theorem rotated_gradient_quarter_turn (gradients : list (list Q)) :
  Forall (fun g => 2 <= length g) gradients ->
  exists R,
    rotated_gradient gradients = Ok R
    /\ length R = length gradients
    /\ rows_eq R (map quarter_turn gradients).
Proof.
  intro H. destruct (@rotated_gradient_run gradients H) as [R [HR HRq]].
  exists R. split; [exact HR|]. split; [|exact HRq].
  apply Forall2_length in HRq. now rewrite length_map in HRq.
Qed.

Lemma rotated_gradient_quarter_turn_witness :
  exists R,
    rotated_gradient sample_gradients = Ok R
    /\ length R = length sample_gradients
    /\ rows_eq R (map quarter_turn sample_gradients).
Proof.
  apply rotated_gradient_quarter_turn.
  repeat constructor.
Defined.

(** X2: a gradient array of at least one row and fewer than two columns
    makes [rotated_gradient] raise [ValueError]: the shapes do not fit the
    matrix product. *)
Theorem rotated_gradient_narrow_row (dim : nat) (gradients : list (list Q)) :
  gradients <> [] ->
  Forall (fun g => length g = dim) gradients ->
  dim < 2 ->
  rotated_gradient gradients = Raise ValueError.
Proof.
  intros Hne Hdim Hnarrow. unfold rotated_gradient.
  destruct gradients as [|g gradients]; [congruence|].
  pose proof (Forall_inv Hdim) as Hg. cbv beta in Hg.
  cbn [map np_dot]. unfold dot_row.
  replace (length (firstn 2 g) =? length (transpose 2 J)) with false.
  - reflexivity.
  - symmetry. apply Nat.eqb_neq. rewrite length_firstn.
    cbn [transpose J length map seq]. lia.
Qed.

Lemma rotated_gradient_narrow_row_witness :
  rotated_gradient [[1]; [4]]%Q = Raise ValueError.
Proof.
  apply (@rotated_gradient_narrow_row 1).
  - discriminate.
  - repeat constructor.
  - lia.
Defined.

Lemma Forall2_nth_rel {A B : Type} (P : A -> B -> Prop) (da : A) (db : B)
    (l1 : list A) :
  forall l2 i,
    Forall2 P l1 l2 -> i < length l1 -> P (nth i l1 da) (nth i l2 db).
Proof.
  induction l1 as [|a l1 IH]; intros l2 i H Hi; [simpl in Hi; lia|].
  inversion H as [|? b ? l2' Hab Hrest]; subst.
  destruct i as [|i]; [exact Hab|].
  cbn [nth]. apply IH; [exact Hrest | simpl in Hi; lia].
Qed.

Lemma pair_Qeq_inv (r : list Q) (a b : Q) :
  Forall2 Qeq r [a; b] ->
  (nth 0 r 0 == a)%Q /\ (nth 1 r 0 == b)%Q /\ length r = 2.
Proof.
  intro H.
  inversion H as [|r0 ? r' ? H0 H']; subst.
  inversion H' as [|r1 ? r'' ? H1 H'']; subst.
  inversion H''; subst. simpl. auto.
Qed.

(** X3: every row [rotated_gradient] returns is orthogonal to the plane part
    of the gradient it comes from and has the same squared length: the
    plane part is turned, not scaled. *)
Theorem rotated_gradient_orthogonal (gradients : list (list Q)) :
  Forall (fun g => 2 <= length g) gradients ->
  exists R,
    rotated_gradient gradients = Ok R
    /\ forall i, i < length gradients ->
         (dot2 (nth i gradients []) (nth i R []) == 0)%Q
         /\ (dot2 (nth i R []) (nth i R [])
             == dot2 (nth i gradients []) (nth i gradients []))%Q.
Proof.
  intro H. destruct (@rotated_gradient_run gradients H) as [R [HR HRq]].
  exists R. split; [exact HR|]. intros i Hi.
  assert (HiR : i < length R).
  { apply Forall2_length in HRq. rewrite length_map in HRq. lia. }
  pose proof (@Forall2_nth_rel _ _ (Forall2 Qeq) [] (quarter_turn []) R
                _ i HRq HiR) as Hrow.
  rewrite (map_nth quarter_turn) in Hrow.
  apply pair_Qeq_inv in Hrow. destruct Hrow as [H0 [H1 _]].
  unfold dot2. rewrite H0, H1. split; ring.
Qed.

Lemma rotated_gradient_orthogonal_witness :
  exists R,
    rotated_gradient sample_gradients = Ok R
    /\ forall i, i < length sample_gradients ->
         (dot2 (nth i sample_gradients []) (nth i R []) == 0)%Q
         /\ (dot2 (nth i R []) (nth i R [])
             == dot2 (nth i sample_gradients []) (nth i sample_gradients []))%Q.
Proof.
  apply rotated_gradient_orthogonal.
  repeat constructor.
Defined.

Lemma quarter_turn_twice (gradients : list (list Q)) :
  forall R,
    rows_eq R (map quarter_turn gradients) ->
    Forall (fun r => 2 <= length r) R
    /\ rows_eq (map quarter_turn R) (map half_turn gradients).
Proof.
  unfold rows_eq.
  induction gradients as [|g gradients IH]; intros R H.
  - inversion H; subst. split; constructor.
  - inversion H as [|r ? R' ? Hr HR']; subst.
    destruct (IH R' HR') as [Hlen Hrows].
    apply pair_Qeq_inv in Hr. destruct Hr as [H0 [H1 H2]].
    split.
    + constructor; [lia | assumption].
    + cbn [map]. constructor; [|assumption].
      unfold quarter_turn, half_turn.
      constructor; [rewrite H1; reflexivity|].
      constructor; [rewrite H0; reflexivity | constructor].
Qed.

Lemma rows_eq_trans (A B C : list (list Q)) :
  rows_eq A B -> rows_eq B C -> rows_eq A C.
Proof.
  unfold rows_eq. intro H. revert C.
  induction H as [|a b A B Hab _ IH]; intros C HC.
  - inversion HC; subst. constructor.
  - inversion HC as [|? c ? C' Hbc HC']; subst.
    constructor; [|now apply IH].
    clear - Hab Hbc. revert c Hbc.
    induction Hab as [|x y a b Hxy _ IHab]; intros c Hbc.
    + inversion Hbc; subst. constructor.
    + inversion Hbc as [|? z ? c' Hyz Hbc']; subst.
      constructor; [now rewrite Hxy | now apply IHab].
Qed.

(** X4: applying [rotated_gradient] to its own result gives the half turn:
    the row of [(gx, gy, ...)] becomes [(-gx, -gy)]. *)
Theorem rotated_gradient_twice (gradients : list (list Q)) :
  Forall (fun g => 2 <= length g) gradients ->
  exists R R2,
    rotated_gradient gradients = Ok R
    /\ rotated_gradient R = Ok R2
    /\ rows_eq R2 (map half_turn gradients).
Proof.
  intro H. destruct (@rotated_gradient_run gradients H) as [R [HR HRq]].
  destruct (@quarter_turn_twice gradients R HRq) as [Hlen Hhalf].
  destruct (@rotated_gradient_run R Hlen) as [R2 [HR2 HR2q]].
  exists R, R2. split; [exact HR|]. split; [exact HR2|].
  eapply rows_eq_trans; eassumption.
Qed.

Lemma rotated_gradient_twice_witness :
  exists R R2,
    rotated_gradient sample_gradients = Ok R
    /\ rotated_gradient R = Ok R2
    /\ rows_eq R2 (map half_turn sample_gradients).
Proof.
  apply rotated_gradient_twice.
  repeat constructor.
Defined.

(** ** generate_crochet_pattern: failures and contents *)

Lemma stitch_loop_short (vs : list vertex) :
  forall i distances re ins,
    i <= length distances -> length distances < i + length vs ->
    stitch_loop i vs distances re ins = Raise IndexError.
Proof.
  induction vs as [|v vs IH]; intros i distances re ins Hi Hlen.
  - simpl in Hlen. lia.
  - cbn [stitch_loop].
    destruct (nth_error distances i) as [d|] eqn:E; [|reflexivity].
    apply IH.
    + assert (i < length distances)
        by (apply nth_error_Some; congruence).
      lia.
    + simpl in Hlen. lia.
Qed.

Lemma stitch_loop_stitches (vs : list vertex) :
  forall i distances re ins,
    i + length vs <= length distances ->
    exists re',
      stitch_loop i vs distances re ins
      = Ok (re',
            ins ++ map (fun k => mk_stitch (i + k) (nth k vs [])
                                   (nth (i + k) distances 0%Q))
                       (seq 0 (length vs))).
Proof.
  induction vs as [|v vs IH]; intros i distances re ins Hlen.
  - exists re. simpl. now rewrite app_nil_r.
  - cbn [stitch_loop length] in *.
    rewrite (nth_error_nth' distances 0%Q) by lia.
    destruct (IH (S i) distances
                (if 0 <? i then re ++ [(i - 1, i)] else re)
                (ins ++ [mk_stitch i v (nth i distances 0%Q)]))
      as [re' Hrun]; [lia|].
    exists re'. cbv zeta. rewrite Hrun. f_equal. f_equal.
    rewrite <- app_assoc. f_equal.
    cbn [seq map app nth]. rewrite Nat.add_0_r. f_equal.
    rewrite <- seq_shift, map_map.
    apply map_ext. intro k. cbn [nth].
    now rewrite Nat.add_succ_r.
Qed.

(** X5: [generate_crochet_pattern] returns a pattern exactly when the field
    is not empty and has an entry for every vertex; an empty field raises
    [ValueError] (from [np.argmin]) and a non-empty field shorter than the
    vertex array raises [IndexError] (from [distances[i]]). *)
Theorem generate_crochet_pattern_returns_iff
    (vertices : list vertex) (faces : list face) (distances : list Q) :
  ((exists p, generate_crochet_pattern vertices faces distances = Ok p)
   <-> distances <> [] /\ length vertices <= length distances)
  /\ (distances = [] ->
      generate_crochet_pattern vertices faces distances = Raise ValueError)
  /\ (distances <> [] -> length distances < length vertices ->
      generate_crochet_pattern vertices faces distances = Raise IndexError).
Proof.
  assert (Hempty : distances = [] ->
            generate_crochet_pattern vertices faces distances
            = Raise ValueError).
  { intros ->. reflexivity. }
  assert (Hshort : distances <> [] -> length distances < length vertices ->
            generate_crochet_pattern vertices faces distances
            = Raise IndexError).
  { intros Hne Hlen. destruct distances as [|d0 ds]; [congruence|].
    unfold generate_crochet_pattern. cbn [np_argmin np_argmax bind].
    rewrite stitch_loop_short; [reflexivity | lia | lia]. }
  split; [|split; assumption].
  split.
  - intros [p Hp].
    destruct distances as [|d0 ds]; [rewrite Hempty in Hp; congruence|].
    split; [discriminate|].
    destruct (Nat.le_gt_cases (length vertices) (length (d0 :: ds)))
      as [H|H]; [assumption|].
    rewrite Hshort in Hp; [discriminate | discriminate | assumption].
  - intros [Hne Hlen].
    destruct (@generate_crochet_pattern_returns vertices faces distances
                Hne Hlen) as [seed [sts [_ [_ Hrun]]]].
    eexists. exact Hrun.
Qed.

(** X6: on a field with an entry for every vertex the pattern has one stitch
    per vertex, in vertex order, stitch [i] carrying the index [i] and the
    position [vertices[i]]; the row edges are the links [(i-1, i)] for
    [i = 1, ..., N-1], so they chain all the stitches in index order. *)
Theorem pattern_contents
    (vertices : list vertex) (faces : list face) (distances : list Q) :
  distances <> [] -> length vertices <= length distances ->
  exists p,
    generate_crochet_pattern vertices faces distances = Ok p
    /\ map vertex_index (stitches p) = seq 0 (length vertices)
    /\ map position (stitches p) = vertices
    /\ row_edges p
       = map (fun i => (i - 1, i)) (seq 1 (length vertices - 1)).
Proof.
  intros Hne Hlen.
  destruct (@stitch_loop_all vertices distances Hlen) as [sts [Hall _]].
  destruct (@stitch_loop_stitches vertices 0 distances [] [])
    as [re' Hst]; [simpl; lia|].
  rewrite Hst in Hall. injection Hall as Hre Hsts.
  destruct distances as [|d0 ds]; [congruence|].
  unfold generate_crochet_pattern. cbn [np_argmin np_argmax bind].
  rewrite Hst. cbn [bind fst snd app].
  eexists. split; [reflexivity|]. cbn [stitches row_edges].
  rewrite !map_map. cbn [vertex_index position plus].
  split; [apply map_id|]. split; [|exact Hre].
  apply (nth_ext _ _ ([] : list Q) ([] : list Q)).
  - now rewrite length_map, length_seq.
  - rewrite length_map, length_seq. intros n Hn.
    rewrite (nth_indep _ ([] : list Q)
               ((fun k => nth k vertices ([] : list Q)) 0))
      by now rewrite length_map, length_seq.
    rewrite (map_nth (fun k => nth k vertices ([] : list Q))).
    now rewrite seq_nth.
Qed.

Lemma pattern_contents_witness :
  exists p,
    generate_crochet_pattern unit_square unit_square_faces unit_square_field
      = Ok p
    /\ map vertex_index (stitches p) = seq 0 (length unit_square)
    /\ map position (stitches p) = unit_square
    /\ row_edges p
       = map (fun i => (i - 1, i)) (seq 1 (length unit_square - 1)).
Proof.
  apply pattern_contents; [discriminate | simpl; lia].
Defined.

(** X7: when the field is as long as the vertex array, [seed_vertex] is the
    index of a stitch of the pattern, and no stitch has a smaller
    distance than that one. *)
Theorem seed_stitch_is_nearest
    (vertices : list vertex) (faces : list face) (distances : list Q) :
  distances <> [] -> length distances = length vertices ->
  exists p st,
    generate_crochet_pattern vertices faces distances = Ok p
    /\ nth_error (stitches p) (seed_vertex p) = Some st
    /\ vertex_index st = seed_vertex p
    /\ forall st', In st' (stitches p) -> (distance st <= distance st')%Q.
Proof.
  intros Hne Hlen.
  destruct (@np_argmin_first distances Hne) as [s [Hs [Hlt [Hmin _]]]].
  destruct (@stitch_loop_stitches vertices 0 distances [] [])
    as [re' Hst]; [simpl; lia|].
  unfold generate_crochet_pattern. rewrite Hs.
  destruct distances as [|d0 ds]; [congruence|].
  cbn [np_argmax bind]. rewrite Hst. cbn [bind fst snd app].
  eexists. exists (stitch_of vertices (d0 :: ds) s).
  split; [reflexivity|]. cbn [stitches seed_vertex].
  split; [|split; [reflexivity|]].
  - rewrite nth_error_map.
    rewrite (nth_error_nth' (seq 0 (length vertices)) 0)
      by (rewrite length_seq; lia).
    rewrite seq_nth by lia. reflexivity.
  - intros st' Hin. apply in_map_iff in Hin.
    destruct Hin as [k [<- Hk]]. apply in_seq in Hk.
    cbn [distance stitch_of plus]. apply Hmin. lia.
Qed.

Lemma seed_stitch_is_nearest_witness :
  exists p st,
    generate_crochet_pattern unit_square unit_square_faces tied_field = Ok p
    /\ nth_error (stitches p) (seed_vertex p) = Some st
    /\ vertex_index st = seed_vertex p
    /\ forall st', In st' (stitches p) -> (distance st <= distance st')%Q.
Proof.
  apply seed_stitch_is_nearest; [discriminate | reflexivity].
Defined.

(** ** find_row_order: edge cases *)








Lemma close_to_nonpos (d t w : Q) : (w <= 0)%Q -> close_to d t w = false.
Proof.
  intro Hw. destruct (close_to d t w) eqn:E; [|reflexivity].
  apply close_to_iff in E. exfalso.
  pose proof (Qabs_nonneg (d - t)) as Habs. halves.
Qed.

Lemma row_loop_nonpos (vs : list vertex) :
  forall i distances t w row,
    (w <= 0)%Q -> row_loop i vs distances t w = Ok row -> row = [].
Proof.
  induction vs as [|v vs IH]; intros i distances t w row Hw Hrun.
  - simpl in Hrun. congruence.
  - cbn [row_loop] in Hrun.
    destruct (nth_error distances i) as [d|]; [|discriminate].
    destruct (row_loop (S i) vs distances t w) as [rest|e] eqn:E;
      [|discriminate].
    cbn [bind] in Hrun. rewrite close_to_nonpos in Hrun by assumption.
    injection Hrun as <-. eapply IH; eassumption.
Qed.

Lemma isoline_loop_nonpos
    (vertices : list vertex) (distances : list Q) (w : Q) :
  (w <= 0)%Q ->
  forall ts acc rows,
    isoline_loop ts vertices distances w acc = Ok rows ->
    Forall (fun row => row = []) acc ->
    length rows = length acc + length ts
    /\ Forall (fun row => row = []) rows.
Proof.
  intros Hw ts. induction ts as [|t ts IH]; intros acc rows Hrun Hacc.
  - simpl in Hrun. injection Hrun as <-. simpl. split; [lia | assumption].
  - cbn [isoline_loop] in Hrun.
    destruct (mask_index vertices
                (map (fun d => close_to d t w) distances)) as [cv|e];
      [|discriminate].
    cbn [bind] in Hrun.
    destruct (row_loop 0 vertices distances t w) as [row|e] eqn:Erow;
      [|discriminate].
    cbn [bind] in Hrun.
    apply row_loop_nonpos in Erow; [|assumption]. subst row.
    apply IH in Hrun.
    + rewrite length_app in Hrun. simpl in *. split; [lia | tauto].
    + apply Forall_app. split; [assumption | now constructor].
Qed.

(** X11: for a negative spacing no vertex is ever put in a row: whatever
    rows [find_row_order] returns (one per isoline value [0, w, 2w, ...]
    above a negative maximum, none otherwise), every one of them is
    empty. *)
Theorem negative_spacing_rows_are_empty
    (vertices : list vertex) (faces : list face) (distances : list Q)
    (w : Q) (rows : list (list row_entry)) :
  (w < 0)%Q ->
  find_row_order vertices faces distances w = Ok rows ->
  Forall (fun row => row = []) rows
  /\ exists ts, isoline_values_of distances w = Ok ts
                /\ length rows = length ts.
Proof.
  intros Hw Hrun.
  unfold find_row_order in Hrun. unfold isoline_values_of.
  destruct (np_max distances) as [m|e]; [|discriminate].
  cbn [bind] in *.
  destruct (np_arange0 m w) as [ts|e]; [|discriminate].
  cbn [bind] in Hrun.
  apply isoline_loop_nonpos in Hrun; [|lra|constructor].
  destruct Hrun as [Hlen Hall]. split; [assumption|].
  exists ts. split; [reflexivity | exact Hlen].
Qed.

Lemma negative_spacing_rows_are_empty_witness :
  Forall (fun row => row = []) [@nil row_entry; []]
  /\ exists ts, isoline_values_of sunk_field (- (1 # 2)) = Ok ts
                /\ length [@nil row_entry; []] = length ts.
Proof.
  apply (@negative_spacing_rows_are_empty sunk_vertices [] sunk_field
           (- (1 # 2))%Q).
  - reflexivity.
  - reflexivity.
Defined.

(** ** compute_gradient: shape and constant fields *)

Lemma gradient_at_length
    (dim : nat) (vertices : list vertex) (values : list Q) (i : nat) :
  Forall (fun v => length v = dim) vertices ->
  i < length vertices ->
  2 <= length (neighbors_of vertices (nth i vertices [])) ->
  length (gradient_at vertices values i) = dim.
Proof.
  intros Hdim Hi Hnb.
  pose proof (@gradient_at_formula dim vertices values i Hdim Hi Hnb) as H.
  apply Forall2_length in H. rewrite H.
  unfold gradient_formula.
  apply Nat.leb_le in Hnb. rewrite Hnb.
  rewrite length_map, length_seq.
  rewrite Forall_forall in Hdim. apply Hdim. now apply nth_In.
Qed.

Lemma gradient_rows
    (dim : nat) (vertices : list vertex) (values : list Q) :
  Forall (fun v => length v = dim) vertices ->
  length values = length vertices ->
  exists G,
    compute_gradient vertices values = Ok G
    /\ length G = length vertices
    /\ forall i, i < length vertices ->
         nth i G []
         = if 1 <? length (neighbors_of vertices (nth i vertices []))
           then gradient_at vertices values i
           else repeat 0%Q (length (nth i vertices [])).
Proof.
  intros Hdim Hval.
  destruct (@gradient_loop_run vertices values Hval vertices 0
              (zeros_like vertices) eq_refl)
    as [G [Hrun [Hlen [_ Hrows]]]].
  { unfold zeros_like. apply length_map. }
  exists G. split; [exact Hrun|]. split; [exact Hlen|].
  intros i Hi. rewrite Hrows by lia.
  destruct (1 <? length (neighbors_of vertices (nth i vertices [])));
    [reflexivity|].
  exact (map_nth (fun v : vertex => repeat 0%Q (length v)) vertices [] i).
Qed.

(** X12: on a vertex array whose rows all have [dim] columns and a field of
    the same length, [compute_gradient] returns an array of the shape of
    [vertices]: one row per vertex, [dim] columns each. *)
Theorem compute_gradient_shape
    (dim : nat) (vertices : list vertex) (values : list Q) :
  Forall (fun v => length v = dim) vertices ->
  length values = length vertices ->
  exists G,
    compute_gradient vertices values = Ok G
    /\ length G = length vertices
    /\ Forall (fun g => length g = dim) G.
Proof.
  intros Hdim Hval.
  destruct (@gradient_rows dim vertices values Hdim Hval)
    as [G [Hrun [Hlen Hrows]]].
  exists G. split; [exact Hrun|]. split; [exact Hlen|].
  apply Forall_forall. intros g Hg.
  destruct (In_nth G g [] Hg) as [i [Hi <-]].
  rewrite Hlen in Hi. rewrite Hrows by assumption.
  assert (Hv : length (nth i vertices []) = dim).
  { rewrite Forall_forall in Hdim. apply Hdim. now apply nth_In. }
  destruct (1 <? length (neighbors_of vertices (nth i vertices []))) eqn:E.
  - apply Nat.ltb_lt in E. now apply gradient_at_length.
  - now rewrite repeat_length.
Qed.

Lemma compute_gradient_shape_witness :
  exists G,
    compute_gradient welded_vertices welded_values = Ok G
    /\ length G = length welded_vertices
    /\ Forall (fun g => length g = 3) G.
Proof.
  apply (@compute_gradient_shape 3).
  - repeat constructor.
  - reflexivity.
Defined.

Lemma Qsum_zero {A : Type} (f : A -> Q) (l : list A) :
  (forall a, In a l -> (f a == 0)%Q) -> (Qsum (map f l) == 0)%Q.
Proof.
  induction l as [|a l IH]; intro H.
  - reflexivity.
  - cbn [map Qsum fold_right]. rewrite (H a) by now left.
    unfold Qsum in IH. rewrite IH; [ring|].
    intros b Hb. apply H. now right.
Qed.

(** X13: a field that takes the same value at every vertex has a zero
    gradient at every vertex, however many neighbours the vertices have. *)
Theorem constant_field_has_zero_gradient
    (dim : nat) (vertices : list vertex) (values : list Q) (c : Q) :
  Forall (fun v => length v = dim) vertices ->
  length values = length vertices ->
  Forall (fun y => (y == c)%Q) values ->
  exists G,
    compute_gradient vertices values = Ok G
    /\ length G = length vertices
    /\ Forall (Forall (fun y => (y == 0)%Q)) G.
Proof.
  intros Hdim Hval Hconst.
  destruct (@gradient_rows dim vertices values Hdim Hval)
    as [G [Hrun [Hlen Hrows]]].
  exists G. split; [exact Hrun|]. split; [exact Hlen|].
  assert (Hc : forall j, j < length values -> (nth j values 0 == c)%Q).
  { intros j Hj. rewrite Forall_forall in Hconst. apply Hconst.
    now apply nth_In. }
  apply Forall_forall. intros g Hg.
  destruct (In_nth G g [] Hg) as [i [Hi <-]].
  rewrite Hlen in Hi. rewrite Hrows by assumption.
  destruct (1 <? length (neighbors_of vertices (nth i vertices []))) eqn:E.
  - apply Nat.ltb_lt in E.
    pose proof (@gradient_at_formula dim vertices values i Hdim Hi E) as H.
    unfold gradient_formula in H.
    apply Nat.leb_le in E as E'. rewrite E' in H.
    set (nb := neighbors_of vertices (nth i vertices [])) in *.
    assert (Hin : forall j, In j nb -> j < length vertices).
    { intros j Hj.
      pose proof (neighbors_in_range vertices (nth i vertices [])) as Hr.
      rewrite Forall_forall in Hr. now apply Hr. }
    revert H. generalize (gradient_at vertices values i).
    generalize (seq 0 (length (nth i vertices []))).
    intros cs. induction cs as [|c0 cs IH]; intros r H.
    + inversion H; subst. constructor.
    + inversion H as [|y ? r' ? Hy Hr]; subst.
      constructor; [|now apply IH].
      rewrite Hy. rewrite Qsum_zero.
      * unfold Qdiv. ring.
      * intros j Hj. rewrite !Hc by (rewrite Hval; auto). ring.
  - apply Forall_forall. intros y Hy.
    apply repeat_spec in Hy. subst y. reflexivity.
Qed.

Lemma constant_field_has_zero_gradient_witness :
  exists G,
    compute_gradient welded_vertices [7; 7; 7]%Q = Ok G
    /\ length G = length welded_vertices
    /\ Forall (Forall (fun y => (y == 0)%Q)) G.
Proof.
  apply (@constant_field_has_zero_gradient 3 welded_vertices [7; 7; 7]%Q 7%Q).
  - repeat constructor.
  - reflexivity.
  - repeat constructor.
Defined.

(** ** find_column_order: the initial guess and the boundary indices *)

Lemma set_row_repeat {A : Type} (c : A) (n : nat) :
  forall i, set_row i c (repeat c n) = repeat c n.
Proof.
  induction n as [|n IH]; intros [|i]; simpl; try reflexivity.
  now rewrite IH.
Qed.

Lemma py_index_fits (n : nat) (b : Z) :
  index_fits n b -> exists i, py_index n b = Some i.
Proof.
  unfold index_fits, py_index. intro H.
  destruct ((0 <=? b) && (b <? Z.of_nat n))%Z eqn:E1; [eauto|].
  destruct ((- Z.of_nat n <=? b) && (b <? 0))%Z eqn:E2; [eauto|].
  exfalso.
  apply andb_false_iff in E1. apply andb_false_iff in E2.
  rewrite !Z.leb_gt, !Z.ltb_ge in *. lia.
Qed.

Lemma py_index_misfit (n : nat) (b : Z) :
  ~ index_fits n b -> py_index n b = None.
Proof.
  unfold index_fits, py_index. intro H.
  destruct ((0 <=? b) && (b <? Z.of_nat n))%Z eqn:E1.
  { exfalso. apply andb_true_iff in E1.
    rewrite Z.leb_le, Z.ltb_lt in E1. lia. }
  destruct ((- Z.of_nat n <=? b) && (b <? 0))%Z eqn:E2; [|reflexivity].
  exfalso. apply andb_true_iff in E2.
  rewrite Z.leb_le, Z.ltb_lt in E2. lia.
Qed.

Lemma assign_at_zeros (n : nat) (boundary_indices : list Z) :
  Forall (index_fits n) boundary_indices ->
  assign_at (repeat 0%Q n) boundary_indices 0%Q = Ok (repeat 0%Q n).
Proof.
  induction 1 as [|b bs Hb _ IH].
  - reflexivity.
  - cbn [assign_at]. rewrite repeat_length.
    destruct (py_index_fits Hb) as [i ->].
    now rewrite set_row_repeat.
Qed.

Lemma assign_at_misfit (boundary_indices : list Z) :
  forall (g : list Q) (c : Q),
    Exists (fun b => ~ index_fits (length g) b) boundary_indices ->
    assign_at g boundary_indices c = Raise IndexError.
Proof.
  induction boundary_indices as [|b bs IH]; intros g c H.
  - inversion H.
  - cbn [assign_at].
    destruct (py_index (length g) b) as [i|] eqn:E; [|reflexivity].
    apply IH. rewrite set_row_length.
    inversion H as [? ? Hb | ? ? Hbs]; subst; [|assumption].
    apply py_index_misfit in Hb. congruence.
Qed.

(** X16: as long as every boundary index fits the row, the boundary indices
    have no effect on [find_column_order]: pinning zeros into the all-zero
    initial guess leaves it as it is, so any two lists of fitting indices
    give the same result. *)
Theorem boundary_indices_have_no_effect
    (minimize : list Q -> list vertex -> list (list Q) ->
                list (list Q) -> result optimize_result)
    (vertices : list vertex) (f_values : list Q)
    (boundary1 boundary2 : list Z) :
  Forall (index_fits (length vertices)) boundary1 ->
  Forall (index_fits (length vertices)) boundary2 ->
  find_column_order minimize vertices f_values boundary1
  = find_column_order minimize vertices f_values boundary2.
Proof.
  intros H1 H2. unfold find_column_order.
  now rewrite (assign_at_zeros H1), (assign_at_zeros H2).
Qed.

Lemma boundary_indices_have_no_effect_witness :
  find_column_order converged_minimize two_vertex_row two_vertex_values
    [0%Z]
  = find_column_order converged_minimize two_vertex_row two_vertex_values
      [1; -2; 0]%Z.
Proof.
  apply boundary_indices_have_no_effect.
  - repeat (apply Forall_cons; [unfold index_fits; simpl; lia|]);
    apply Forall_nil.
  - repeat (apply Forall_cons; [unfold index_fits; simpl; lia|]);
    apply Forall_nil.
Defined.

Lemma find_column_order_run_aux
    (dim : nat) (vertices : list vertex) (f_values : list Q) :
  2 <= dim ->
  Forall (fun v => length v = dim) vertices ->
  length f_values = length vertices ->
  exists G R,
    compute_gradient vertices f_values = Ok G
    /\ rotated_gradient G = Ok R
    /\ rows_eq R (map quarter_turn G).
Proof.
  intros Hdim Hrows Hval.
  destruct (@gradient_rows dim vertices f_values Hrows Hval)
    as [G [HG [Hlen HGrows]]].
  assert (Hwide : Forall (fun g => 2 <= length g) G).
  { apply Forall_forall. intros g Hg.
    destruct (In_nth G g [] Hg) as [i [Hi <-]].
    rewrite Hlen in Hi. rewrite HGrows by assumption.
    assert (Hv : length (nth i vertices []) = dim).
    { rewrite Forall_forall in Hrows. apply Hrows. now apply nth_In. }
    destruct (1 <? length (neighbors_of vertices (nth i vertices [])))
      eqn:E.
    - apply Nat.ltb_lt in E.
      rewrite (@gradient_at_length dim vertices f_values i); auto.
    - rewrite repeat_length. lia. }
  destruct (@rotated_gradient_run G Hwide) as [R [HR HRq]].
  exists G, R. auto.
Qed.

(** X17: on a well-shaped row (at least two columns per vertex, a field
    value per vertex, fitting boundary indices) [find_column_order] hands
    the solver the all-zero initial guess, the gradient array and its
    quarter turn, and returns the solver's iterate; an exception of the
    solver is passed on unchanged. *)
Theorem find_column_order_run
    (minimize : list Q -> list vertex -> list (list Q) ->
                list (list Q) -> result optimize_result)
    (dim : nat) (vertices : list vertex) (f_values : list Q)
    (boundary_indices : list Z) :
  2 <= dim ->
  Forall (fun v => length v = dim) vertices ->
  length f_values = length vertices ->
  Forall (index_fits (length vertices)) boundary_indices ->
  exists G R,
    compute_gradient vertices f_values = Ok G
    /\ rotated_gradient G = Ok R
    /\ rows_eq R (map quarter_turn G)
    /\ find_column_order minimize vertices f_values boundary_indices
       = match minimize (repeat 0%Q (length vertices)) vertices G R with
         | Ok res => Ok (x res)
         | Raise e => Raise e
         end.
Proof.
  intros Hdim Hrows Hval Hfit.
  destruct (@find_column_order_run_aux dim vertices f_values Hdim Hrows Hval)
    as [G [R [HG [HR HRq]]]].
  exists G, R. split; [exact HG|]. split; [exact HR|]. split; [exact HRq|].
  unfold find_column_order. rewrite HG. cbn [bind]. rewrite HR. cbn [bind].
  rewrite (assign_at_zeros Hfit). reflexivity.
Qed.

Lemma find_column_order_run_witness :
  exists G R,
    compute_gradient two_vertex_row two_vertex_values = Ok G
    /\ rotated_gradient G = Ok R
    /\ rows_eq R (map quarter_turn G)
    /\ find_column_order converged_minimize two_vertex_row two_vertex_values
         [0%Z]
       = match converged_minimize (repeat 0%Q (length two_vertex_row))
                 two_vertex_row G R with
         | Ok res => Ok (x res)
         | Raise e => Raise e
         end.
Proof.
  apply (@find_column_order_run converged_minimize 3).
  - lia.
  - repeat constructor.
  - reflexivity.
  - repeat (apply Forall_cons; [unfold index_fits; simpl; lia|]);
    apply Forall_nil.
Defined.

(** X18: on a well-shaped row, a boundary index that does not fit the row
    makes [find_column_order] raise [IndexError] whatever the solver would
    do: the solver is not reached. *)
Theorem boundary_index_out_of_range
    (minimize : list Q -> list vertex -> list (list Q) ->
                list (list Q) -> result optimize_result)
    (dim : nat) (vertices : list vertex) (f_values : list Q)
    (boundary_indices : list Z) :
  2 <= dim ->
  Forall (fun v => length v = dim) vertices ->
  length f_values = length vertices ->
  Exists (fun b => ~ index_fits (length vertices) b) boundary_indices ->
  find_column_order minimize vertices f_values boundary_indices
  = Raise IndexError.
Proof.
  intros Hdim Hrows Hval Hmis.
  destruct (@find_column_order_run_aux dim vertices f_values Hdim Hrows Hval)
    as [G [R [HG [HR _]]]].
  unfold find_column_order. rewrite HG. cbn [bind]. rewrite HR. cbn [bind].
  rewrite assign_at_misfit; [reflexivity|].
  now rewrite repeat_length.
Qed.

Lemma boundary_index_out_of_range_witness :
  find_column_order converged_minimize two_vertex_row two_vertex_values
    [0; 2]%Z
  = Raise IndexError.
Proof.
  apply (@boundary_index_out_of_range converged_minimize 3).
  - lia.
  - repeat constructor.
  - reflexivity.
  - right. left. unfold index_fits. simpl. lia.
Defined.

(** ** The column orders of the driver *)

(** X19: rows of fewer than two entries are passed over: on a row order
    made of such rows only, the driver's loop returns the column orders it
    started with, whatever the solver (it is never run). *)
Theorem short_rows_are_skipped
    (minimize : list Q -> list vertex -> list (list Q) ->
                list (list Q) -> result optimize_result)
    (row_order : list (list row_entry)) (vertices : list vertex)
    (column_orders : list (list Q)) :
  Forall (fun row => length row <= 1) row_order ->
  column_orders_loop minimize row_order vertices column_orders
  = Ok column_orders.
Proof.
  intro H. revert column_orders.
  induction H as [|row row_order Hrow _ IH]; intro column_orders.
  - reflexivity.
  - cbn [column_orders_loop].
    replace (1 <? length row) with false
      by (symmetry; apply Nat.ltb_ge; exact Hrow).
    apply IH.
Qed.

Lemma short_rows_are_skipped_witness :
  column_orders_loop failing_minimize [[]; [mk_entry 0 0 0]]%Q unit_square []
  = Ok [].
Proof.
  apply short_rows_are_skipped.
  repeat constructor.
Defined.

Lemma column_orders_loop_count
    (minimize : list Q -> list vertex -> list (list Q) ->
                list (list Q) -> result optimize_result)
    (vertices : list vertex) (row_order : list (list row_entry)) :
  forall column_orders cols,
    column_orders_loop minimize row_order vertices column_orders = Ok cols ->
    length cols
    = length column_orders
      + length (filter (fun row => 1 <? length row) row_order).
Proof.
  induction row_order as [|row row_order IH]; intros column_orders cols H.
  - simpl in H. injection H as <-. simpl. lia.
  - cbn [column_orders_loop filter] in *.
    destruct (1 <? length row).
    + destruct (take vertices (map vert_index row)) as [rv|e];
        [|discriminate].
      cbn [bind] in H.
      destruct (find_column_order minimize rv (map raw_distance row) [0%Z])
        as [g|e]; [|discriminate].
      cbn [bind] in H. apply IH in H.
      rewrite length_app in H. simpl in *. lia.
    + now apply IH.
Qed.

(** X20: when the driver's loop completes, it has produced one column order
    per row of more than one entry, no more and no fewer. *)
Theorem one_column_order_per_long_row
    (minimize : list Q -> list vertex -> list (list Q) ->
                list (list Q) -> result optimize_result)
    (vertices : list vertex) (row_order : list (list row_entry))
    (cols : list (list Q)) :
  column_orders_loop minimize row_order vertices [] = Ok cols ->
  length cols = length (filter (fun row => 1 <? length row) row_order).
Proof.
  intro H. apply column_orders_loop_count in H. simpl in H. exact H.
Qed.

Lemma one_column_order_per_long_row_witness :
  length [[0; 0]%Q]
  = length (filter (fun row => 1 <? length row) sample_row_order).
Proof.
  apply (@one_column_order_per_long_row converged_minimize unit_square
           sample_row_order [[0; 0]%Q]).
  reflexivity.
Defined.

Lemma row_loop_indices (vs : list vertex) :
  forall i distances t w row,
    row_loop i vs distances t w = Ok row ->
    Forall (fun e => vert_index e < i + length vs) row.
Proof.
  induction vs as [|v vs IH]; intros i distances t w row H.
  - simpl in H. injection H as <-. constructor.
  - cbn [row_loop] in H.
    destruct (nth_error distances i) as [d|]; [|discriminate].
    destruct (row_loop (S i) vs distances t w) as [rest|e] eqn:E;
      [|discriminate].
    cbn [bind] in H. apply IH in E.
    assert (Hrest : Forall (fun e => vert_index e < i + length (v :: vs))
                           rest).
    { eapply Forall_impl; [|exact E]. intros e He. simpl in *. lia. }
    destruct (close_to d t w); injection H as <-; [|assumption].
    constructor; [simpl; lia | assumption].
Qed.

Lemma isoline_loop_indices
    (vertices : list vertex) (distances : list Q) (w : Q) :
  forall ts acc rows,
    isoline_loop ts vertices distances w acc = Ok rows ->
    Forall (Forall (fun e => vert_index e < length vertices)) acc ->
    Forall (Forall (fun e => vert_index e < length vertices)) rows.
Proof.
  intro ts. induction ts as [|t ts IH]; intros acc rows H Hacc.
  - simpl in H. now injection H as <-.
  - cbn [isoline_loop] in H.
    destruct (mask_index vertices
                (map (fun d => close_to d t w) distances)) as [cv|e];
      [|discriminate].
    cbn [bind] in H.
    destruct (row_loop 0 vertices distances t w) as [row|e] eqn:Erow;
      [|discriminate].
    cbn [bind] in H. apply row_loop_indices in Erow.
    apply (IH (acc ++ [row]) rows H). apply Forall_app. split; [assumption|].
    constructor; [exact Erow | constructor].
Qed.

Lemma find_row_order_indices
    (vertices : list vertex) (faces : list face) (distances : list Q)
    (w : Q) (rows : list (list row_entry)) :
  find_row_order vertices faces distances w = Ok rows ->
  Forall (Forall (fun e => vert_index e < length vertices)) rows.
Proof.
  unfold find_row_order. intro H.
  destruct (np_max distances) as [m|e]; [|discriminate].
  cbn [bind] in H.
  destruct (np_arange0 m w) as [ts|e]; [|discriminate].
  cbn [bind] in H.
  apply (@isoline_loop_indices vertices distances w ts [] rows H).
  constructor.
Qed.

Lemma column_orders_loop_abort
    (minimize : list Q -> list vertex -> list (list Q) ->
                list (list Q) -> result optimize_result)
    (e : exn) (dim : nat) (vertices : list vertex) :
  2 <= dim ->
  Forall (fun v => length v = dim) vertices ->
  (forall g v gr rg, minimize g v gr rg = Raise e) ->
  forall row_order column_orders,
    Forall (Forall (fun en => vert_index en < length vertices)) row_order ->
    Exists (fun row => 2 <= length row) row_order ->
    column_orders_loop minimize row_order vertices column_orders = Raise e.
Proof.
  intros Hdim Hrows Hfail row_order.
  induction row_order as [|row row_order IH];
    intros column_orders Hidx Hlong; [inversion Hlong|].
  pose proof (Forall_inv Hidx) as Hrow.
  pose proof (Forall_inv_tail Hidx) as Hidx'.
  cbn [column_orders_loop].
  destruct (1 <? length row) eqn:E.
  - apply Nat.ltb_lt in E.
    rewrite (@take_in_range vertex [] vertices (map vert_index row)).
    2:{ apply Forall_forall. intros j Hj. apply in_map_iff in Hj.
        destruct Hj as [en [<- Hen]].
        rewrite Forall_forall in Hrow. now apply Hrow. }
    cbn [bind].
    set (rv := map (fun j => nth j vertices []) (map vert_index row)).
    assert (Hrv : Forall (fun v => length v = dim) rv).
    { apply Forall_forall. intros v Hv. unfold rv in Hv.
      rewrite map_map in Hv. apply in_map_iff in Hv.
      destruct Hv as [en [<- Hen]].
      rewrite Forall_forall in Hrow, Hrows.
      apply Hrows, nth_In. now apply Hrow. }
    assert (Hlen : length (map raw_distance row) = length rv).
    { unfold rv. now rewrite !length_map. }
    assert (Hfit : Forall (index_fits (length rv)) [0%Z]).
    { constructor; [|constructor]. unfold index_fits, rv.
      rewrite !length_map. lia. }
    destruct (@find_column_order_run_aux dim rv (map raw_distance row)
                Hdim Hrv Hlen) as [G [R [HG [HR _]]]].
    unfold find_column_order. rewrite HG. cbn [bind]. rewrite HR.
    cbn [bind]. rewrite (assign_at_zeros Hfit). cbn [bind].
    rewrite Hfail. reflexivity.
  - apply IH; [assumption|].
    inversion Hlong as [? ? Hl | ? ? Hl]; subst; [|assumption].
    apply Nat.ltb_ge in E. lia.
Qed.

(** X21: a solver failure is not confined to its row: with a solver that
    raises, the driver's loop over the rows [find_row_order] returned
    (vertices of at least two columns) raises that exception as soon as one
    row has two entries or more, and no column order is produced for any
    row. *)
Theorem solver_failure_aborts_the_loop
    (minimize : list Q -> list vertex -> list (list Q) ->
                list (list Q) -> result optimize_result)
    (e : exn) (dim : nat)
    (vertices : list vertex) (faces : list face) (distances : list Q)
    (w : Q) (row_order : list (list row_entry)) :
  2 <= dim ->
  Forall (fun v => length v = dim) vertices ->
  (forall g v gr rg, minimize g v gr rg = Raise e) ->
  find_row_order vertices faces distances w = Ok row_order ->
  Exists (fun row => 2 <= length row) row_order ->
  column_orders_loop minimize row_order vertices [] = Raise e.
Proof.
  intros Hdim Hrows Hfail Hrun Hlong.
  apply (@column_orders_loop_abort minimize e dim vertices Hdim Hrows Hfail).
  - exact (@find_row_order_indices vertices faces distances w row_order
             Hrun).
  - exact Hlong.
Qed.

Lemma solver_failure_aborts_the_loop_witness :
  column_orders_loop failing_minimize
    [[mk_entry 0 0 (0 + inject_Z 0 * (1 # 2))]; [];
     [mk_entry 1 1 (0 + inject_Z 2 * (1 # 2));
      mk_entry 2 1 (0 + inject_Z 2 * (1 # 2))]; []]%Q
    unit_square []
  = Raise ValueError.
Proof.
  apply (@solver_failure_aborts_the_loop failing_minimize ValueError 3
           unit_square unit_square_faces unit_square_field (1 # 2)%Q).
  - lia.
  - repeat constructor.
  - reflexivity.
  - reflexivity.
  - right. right. left. simpl. lia.
Defined.

(** ** find_column_order with the objective of the program *)

(** The solver of the program never returns: the first evaluation of
    [objective] raises. *)
Lemma scipy_minimize_objective_raises
    (lbfgsb : (list Q -> result Q) -> list Q -> Q -> result optimize_result)
    (x0 : list Q) (vertices : list vertex)
    (gradients rotated_gradients : list (list Q)) :
  scipy_minimize lbfgsb objective x0 vertices gradients rotated_gradients
  = Raise ValueError.
Proof. reflexivity. Qed.

(** X22: with the objective of the program, [find_column_order] returns no
    column order: on a well-shaped row (at least one vertex, at least two
    columns per vertex, a field value per vertex, fitting boundary indices)
    the first evaluation of [objective] raises [ValueError], since
    [np.gradient] is handed the 2-D array [vertices[:, :2]] as coordinates,
    and the exception leaves [minimize] and [find_column_order] whatever
    the iterations of the solver would do. *)
Theorem find_column_order_raises_in_objective
    (lbfgsb : (list Q -> result Q) -> list Q -> Q -> result optimize_result)
    (dim : nat) (vertices : list vertex) (f_values : list Q)
    (boundary_indices : list Z) :
  2 <= dim ->
  vertices <> [] ->
  Forall (fun v => length v = dim) vertices ->
  length f_values = length vertices ->
  Forall (index_fits (length vertices)) boundary_indices ->
  find_column_order (scipy_minimize lbfgsb objective)
    vertices f_values boundary_indices
  = Raise ValueError.
Proof.
  intros Hdim _ Hrows Hval Hfit.
  destruct (@find_column_order_run_aux dim vertices f_values Hdim Hrows Hval)
    as [G [R [HG [HR _]]]].
  unfold find_column_order. rewrite HG. cbn [bind]. rewrite HR. cbn [bind].
  rewrite (assign_at_zeros Hfit). cbn [bind].
  rewrite scipy_minimize_objective_raises. reflexivity.
Qed.

Lemma find_column_order_raises_in_objective_witness :
  find_column_order (scipy_minimize idle_lbfgsb objective)
    two_vertex_row two_vertex_values [0%Z]
  = Raise ValueError.
Proof.
  apply (@find_column_order_raises_in_objective idle_lbfgsb 3).
  - lia.
  - discriminate.
  - repeat constructor.
  - reflexivity.
  - repeat (apply Forall_cons; [unfold index_fits; simpl; lia|]);
    apply Forall_nil.
Defined.

(** X23: with the objective of the program, the driver's loop over the rows
    [find_row_order] returned (vertices of at least two columns) produces
    no column order at all as soon as one row has two entries or more: it
    raises the [ValueError] of [objective]. *)
Theorem column_orders_stop_at_the_first_long_row
    (lbfgsb : (list Q -> result Q) -> list Q -> Q -> result optimize_result)
    (dim : nat)
    (vertices : list vertex) (faces : list face) (distances : list Q)
    (w : Q) (row_order : list (list row_entry)) :
  2 <= dim ->
  Forall (fun v => length v = dim) vertices ->
  find_row_order vertices faces distances w = Ok row_order ->
  Exists (fun row => 2 <= length row) row_order ->
  column_orders_loop (scipy_minimize lbfgsb objective) row_order vertices []
  = Raise ValueError.
Proof.
  intros Hdim Hrows Hrun Hlong.
  apply (@column_orders_loop_abort (scipy_minimize lbfgsb objective)
           ValueError dim vertices Hdim Hrows).
  - intros g v gr rg. apply scipy_minimize_objective_raises.
  - exact (@find_row_order_indices vertices faces distances w row_order
             Hrun).
  - exact Hlong.
Qed.

Lemma column_orders_stop_at_the_first_long_row_witness :
  column_orders_loop (scipy_minimize idle_lbfgsb objective)
    [[mk_entry 0 0 (0 + inject_Z 0 * (1 # 2))]; [];
     [mk_entry 1 1 (0 + inject_Z 2 * (1 # 2));
      mk_entry 2 1 (0 + inject_Z 2 * (1 # 2))]; []]%Q
    unit_square []
  = Raise ValueError.
Proof.
  apply (@column_orders_stop_at_the_first_long_row idle_lbfgsb 3
           unit_square unit_square_faces unit_square_field (1 # 2)%Q).
  - lia.
  - repeat constructor.
  - reflexivity.
  - right. right. left. simpl. lia.
Defined.

(** * Properties of the functions on binary64 numbers *)

(** ** The isoline values *)

(** A quotient whose ceiling is positive is not a zero. *)
Lemma b64_ceiling_pos_nonzero (q : float) (c : Z) :
  Binary64.ceiling q = Some c -> (0 < c)%Z -> (q =? 0)%float = false.
Proof.
  intros Hc Hpos. destruct (q =? 0)%float eqn:E; [|reflexivity].
  exfalso. unfold Binary64.ceiling, Binary64.exact, Prim2SF in Hc.
  destruct (is_nan q); [discriminate|].
  unfold is_zero in Hc. change zero with 0%float in Hc. rewrite E in Hc.
  cbn in Hc. injection Hc as <-. lia.
Qed.

Lemma b64_arange_length_pos (m w : float) (c : Z) :
  Binary64.ceiling ((m - 0) / w)%float = Some c ->
  (0 < c <= Binary64.max_intp)%Z ->
  Binary64.arange_length m w = Ok (Z.to_nat c).
Proof.
  intros Hc [Hpos Hmax]. unfold Binary64.arange_length. cbv zeta.
  rewrite (b64_ceiling_pos_nonzero _ Hc Hpos). cbn [andb]. rewrite Hc.
  replace ((Binary64.min_intp <=? c) && (c <=? Binary64.max_intp))%Z
    with true; [reflexivity|].
  symmetry. apply andb_true_intro. split; apply Z.leb_le; [|assumption].
  unfold Binary64.min_intp. lia.
Qed.

(** ** The rows of find_row_order *)

Lemma b64_row_loop_run (vs : list Binary64.vertex) :
  forall i distances t w,
    i + length vs <= length distances ->
    Binary64.row_loop i vs distances t w
    = Ok (Binary64.row_from distances i (length vs) t w).
Proof.
  induction vs as [|v vs IH]; intros i distances t w Hlen.
  - reflexivity.
  - cbn [Binary64.row_loop length] in *.
    rewrite (nth_error_nth' distances 0%float) by lia.
    rewrite IH by lia. cbn [bind].
    unfold Binary64.row_from. cbn [seq filter].
    destruct (Binary64.close_to (nth i distances 0%float) t w); reflexivity.
Qed.

Lemma b64_isoline_loop_run
    (vertices : list Binary64.vertex) (distances : list float) (w : float) :
  length distances = length vertices ->
  forall ts acc,
    Binary64.isoline_loop ts vertices distances w acc
    = Ok (acc ++ map (fun t => Binary64.row_from distances 0
                                 (length vertices) t w) ts).
Proof.
  intros Hlen ts. induction ts as [|t ts IH]; intro acc.
  - simpl. now rewrite app_nil_r.
  - cbn [Binary64.isoline_loop map]. unfold mask_index.
    rewrite length_map, Hlen, Nat.eqb_refl. cbn [bind].
    rewrite b64_row_loop_run by lia. cbn [bind].
    rewrite IH, <- app_assoc. reflexivity.
Qed.

(** Once the isoline values exist, [find_row_order] returns one row for
    each, in their order. *)
Lemma b64_find_row_order_run
    (vertices : list Binary64.vertex) (faces : list face)
    (distances : list float) (w : float) (ts : list float) :
  length distances = length vertices ->
  Binary64.isoline_values_of distances w = Ok ts ->
  Binary64.find_row_order vertices faces distances w
  = Ok (map (fun t => Binary64.row_from distances 0 (length vertices) t w)
            ts).
Proof.
  intros Hlen Hts. unfold Binary64.isoline_values_of in Hts.
  unfold Binary64.find_row_order.
  destruct (Binary64.np_max distances) as [m|e]; [|discriminate].
  cbn [bind] in *. rewrite Hts. cbn [bind].
  now rewrite b64_isoline_loop_run.
Qed.

Lemma b64_row_from_indices (distances : list float) (a n : nat) (t w : float) :
  map Binary64.vert_index (Binary64.row_from distances a n t w)
  = filter (fun i => Binary64.close_to (nth i distances 0%float) t w)
           (seq a n).
Proof.
  unfold Binary64.row_from. rewrite map_map. cbn [Binary64.vert_index].
  apply map_id.
Qed.

(** C3, as stated, does not hold of the count of buckets: with the spacing
    [0.03] of the driver and a field whose greatest value is [3.87] the
    quotient [3.87 / 0.03] rounds to [129], so [find_row_order] returns
    buckets [0] to [128], although [129 * 0.03 < 3.87] both as binary64
    computes the product and between the numbers themselves. *)
Lemma bucket_count_is_a_rounded_quotient :
  ~ Binary64.buckets_as_specified Binary64.below_rounded
  /\ ~ Binary64.buckets_as_specified Binary64.below_exact.
Proof.
  split; intro H;
    destruct (H Binary64.ridge_vertices [] Binary64.ridge_field
                Binary64.driver_spacing 3.87%float
                eq_refl eq_refl eq_refl) as [rows [Hrun Hk]];
    vm_compute in Hrun; injection Hrun as <-;
    destruct (Hk 129) as [_ Hk']; clear Hk;
    assert (Hlt : 129 < 129) by (apply Hk'; vm_compute; reflexivity);
    lia.
Qed.

(** C3, amended: for a spacing [w > 0] and a field whose binary64 quotient
    [max(field) / w] has a positive ceiling [c], [find_row_order] returns
    [c] buckets; bucket [k] belongs to the isoline value that [np.arange]
    puts at position [k] ([k * w] as binary64 computes it); vertex [v] is in
    the bucket of [t] exactly when [|field[v] - t| < w / 2] holds in
    binary64; inside a bucket the vertex indices increase; a bucket is
    emitted whether or not a vertex qualifies. *)
Theorem find_row_order_rounded_buckets
    (vertices : list Binary64.vertex) (faces : list face)
    (distances : list float) (w m : float) (c : Z) :
  (0 <? w)%float = true ->
  length distances = length vertices ->
  Binary64.np_max distances = Ok m ->
  Binary64.ceiling ((m - 0) / w)%float = Some c ->
  (0 < c <= Binary64.max_intp)%Z ->
  exists ts rows,
    Binary64.isoline_values_of distances w = Ok ts
    /\ Binary64.find_row_order vertices faces distances w = Ok rows
    /\ length ts = Z.to_nat c
    /\ length rows = Z.to_nat c
    /\ (forall k, k < length ts ->
          nth k ts 0%float = Binary64.arange_value w k)
    /\ (forall k row, nth_error rows k = Some row ->
          let t := nth k ts 0%float in
          (forall v, In v (map Binary64.vert_index row) <->
                     v < length vertices
                     /\ (PrimFloat.abs (nth v distances 0 - t) <? w / 2)%float
                        = true)
          /\ StronglySorted lt (map Binary64.vert_index row)
          /\ (forall e, In e row ->
                Binary64.reg_distance e = t
                /\ Binary64.raw_distance e
                   = nth (Binary64.vert_index e) distances 0%float)).
Proof.
  intros _ Hlen Hm Hc Hrange.
  set (n := Z.to_nat c).
  set (ts := map (Binary64.arange_value w) (seq 0 n)).
  assert (Hts : Binary64.isoline_values_of distances w = Ok ts).
  { unfold Binary64.isoline_values_of, Binary64.np_arange0.
    rewrite Hm. cbn [bind].
    rewrite (b64_arange_length_pos _ _ Hc Hrange). reflexivity. }
  exists ts. eexists.
  split; [exact Hts|].
  split; [exact (@b64_find_row_order_run vertices faces distances w ts
                   Hlen Hts)|].
  unfold ts. rewrite !length_map, length_seq.
  split; [reflexivity|]. split; [reflexivity|]. split.
  - intros k Hk.
    rewrite (nth_indep _ 0%float (Binary64.arange_value w 0))
      by now rewrite length_map, length_seq.
    rewrite map_nth, seq_nth by assumption. reflexivity.
  - intros k row Hrow.
    set (t := nth k (map (Binary64.arange_value w) (seq 0 n)) 0%float).
    rewrite nth_error_map in Hrow.
    destruct (nth_error (map (Binary64.arange_value w) (seq 0 n)) k)
      as [t'|] eqn:Et; [|discriminate].
    assert (Ht : t = t') by (apply nth_error_nth; assumption).
    injection Hrow as <-. rewrite <- Ht. clear Et Ht t'.
    rewrite b64_row_from_indices. split; [|split].
    + intro v. rewrite filter_In, in_seq. unfold Binary64.close_to.
      intuition lia.
    + apply filter_seq_sorted.
    + intros e He. unfold Binary64.row_from in He. apply in_map_iff in He.
      destruct He as [i [<- _]]. split; reflexivity.
Qed.

Lemma find_row_order_rounded_buckets_witness :
  exists ts rows,
    Binary64.isoline_values_of Binary64.ridge_field Binary64.driver_spacing
    = Ok ts
    /\ Binary64.find_row_order Binary64.ridge_vertices []
         Binary64.ridge_field Binary64.driver_spacing = Ok rows
    /\ length ts = 129
    /\ length rows = 129
    /\ (forall k, k < length ts ->
          nth k ts 0%float
          = Binary64.arange_value Binary64.driver_spacing k)
    /\ (forall k row, nth_error rows k = Some row ->
          let t := nth k ts 0%float in
          (forall v, In v (map Binary64.vert_index row) <->
                     v < length Binary64.ridge_vertices
                     /\ (PrimFloat.abs (nth v Binary64.ridge_field 0 - t)
                         <? Binary64.driver_spacing / 2)%float = true)
          /\ StronglySorted lt (map Binary64.vert_index row)
          /\ (forall e, In e row ->
                Binary64.reg_distance e = t
                /\ Binary64.raw_distance e
                   = nth (Binary64.vert_index e) Binary64.ridge_field
                         0%float)).
Proof.
  apply (@find_row_order_rounded_buckets
           Binary64.ridge_vertices [] Binary64.ridge_field
           Binary64.driver_spacing 3.87%float 129%Z).
  - reflexivity.
  - reflexivity.
  - reflexivity.
  - vm_compute. reflexivity.
  - unfold Binary64.max_intp. lia.
Defined.

(** ** Coverage of the vertices by the buckets *)

(** C4, as stated, does not hold: with [w = 1] the isoline values are [0]
    and [1], and the vertex of field value [1.75 < 2] is within [0.5] of
    neither. *)
Lemma coverage_gap_below_max : ~ Binary64.coverage_as_specified.
Proof.
  intro H.
  destruct (H Binary64.gap_vertices [] Binary64.gap_field 1%float 2%float 1
              eq_refl eq_refl eq_refl)
    as [rows [row [Hrun [Hrow Hv]]]].
  - simpl. lia.
  - reflexivity.
  - vm_compute in Hrun. injection Hrun as <-.
    simpl in Hrow. destruct Hrow as [<-|[<-|[]]]; simpl in Hv.
    + destruct Hv as [Hv|[]]. discriminate.
    + destruct Hv.
Qed.

(** C4, amended: for a spacing [w > 0] and a field whose binary64 quotient
    [max(field) / w] has a positive ceiling [c] (the number of buckets),
    vertex [v] appears in at least one bucket returned by [find_row_order]
    exactly when some [k] below [c] has [|field[v] - t| < w / 2] for the
    isoline value [t] at position [k] ([k * w] as binary64 computes it),
    the difference and the comparison being those of binary64. *)
Theorem coverage_by_emitted_values
    (vertices : list Binary64.vertex) (faces : list face)
    (distances : list float) (w m : float) (c : Z) :
  (0 <? w)%float = true ->
  length distances = length vertices ->
  Binary64.np_max distances = Ok m ->
  Binary64.ceiling ((m - 0) / w)%float = Some c ->
  (0 < c <= Binary64.max_intp)%Z ->
  exists rows,
    Binary64.find_row_order vertices faces distances w = Ok rows
    /\ forall v,
         (exists row, In row rows /\ In v (map Binary64.vert_index row))
         <-> v < length vertices
             /\ exists k,
                  (Z.of_nat k < c)%Z
                  /\ (PrimFloat.abs
                        (nth v distances 0 - Binary64.arange_value w k)
                      <? w / 2)%float = true.
Proof.
  intros _ Hlen Hm Hc Hrange.
  set (ts := map (Binary64.arange_value w) (seq 0 (Z.to_nat c))).
  assert (Hts : Binary64.isoline_values_of distances w = Ok ts).
  { unfold Binary64.isoline_values_of, Binary64.np_arange0.
    rewrite Hm. cbn [bind].
    rewrite (b64_arange_length_pos _ _ Hc Hrange). reflexivity. }
  eexists.
  split; [exact (@b64_find_row_order_run vertices faces distances w ts
                   Hlen Hts)|].
  intro v. split.
  - intros [row [Hrow Hv]]. apply in_map_iff in Hrow.
    destruct Hrow as [t [<- Ht]].
    rewrite b64_row_from_indices in Hv. apply filter_In in Hv.
    destruct Hv as [Hv Hclose]. apply in_seq in Hv.
    split; [lia|].
    unfold ts in Ht. apply in_map_iff in Ht. destruct Ht as [k [<- Hk]].
    apply in_seq in Hk. exists k. split; [lia | exact Hclose].
  - intros [Hv [k [Hk Hclose]]].
    exists (Binary64.row_from distances 0 (length vertices)
              (Binary64.arange_value w k) w).
    split.
    + apply in_map_iff. exists (Binary64.arange_value w k).
      split; [reflexivity|].
      unfold ts. apply in_map. apply in_seq. lia.
    + rewrite b64_row_from_indices. apply filter_In. split.
      * apply in_seq. lia.
      * exact Hclose.
Qed.

Lemma coverage_by_emitted_values_witness :
  exists rows,
    Binary64.find_row_order Binary64.gap_vertices [] Binary64.gap_field
      1%float = Ok rows
    /\ forall v,
         (exists row, In row rows /\ In v (map Binary64.vert_index row))
         <-> v < length Binary64.gap_vertices
             /\ exists k,
                  (Z.of_nat k < 2)%Z
                  /\ (PrimFloat.abs
                        (nth v Binary64.gap_field 0
                         - Binary64.arange_value 1 k)
                      <? 1 / 2)%float = true.
Proof.
  apply (@coverage_by_emitted_values
           Binary64.gap_vertices [] Binary64.gap_field 1%float 2%float 2%Z).
  - reflexivity.
  - reflexivity.
  - reflexivity.
  - vm_compute. reflexivity.
  - unfold Binary64.max_intp. lia.
Defined.

(** ** The gradient estimate *)

Lemma b64_vadd_length (u v : list float) :
  length u = length v -> length (Binary64.vadd u v) = length u.
Proof.
  intro H. unfold Binary64.vadd. rewrite length_map, length_combine. lia.
Qed.

Lemma b64_vsub_length (u v : list float) :
  length u = length v -> length (Binary64.vsub u v) = length u.
Proof.
  intro H. unfold Binary64.vsub. rewrite length_map, length_combine. lia.
Qed.

Lemma b64_vscale_length (a : float) (u : list float) :
  length (Binary64.vscale a u) = length u.
Proof. apply length_map. Qed.

Lemma b64_vadd_nth (u : list float) :
  forall v c, length u = length v -> c < length u ->
    nth c (Binary64.vadd u v) 0%float = (nth c u 0 + nth c v 0)%float.
Proof.
  induction u as [|a u IH]; intros [|b v] c H Hc; try discriminate;
    simpl in Hc; try lia.
  destruct c as [|c]; [reflexivity|].
  apply (IH v c); simpl in H; lia.
Qed.

Lemma b64_vsub_nth (u : list float) :
  forall v c, length u = length v -> c < length u ->
    nth c (Binary64.vsub u v) 0%float = (nth c u 0 - nth c v 0)%float.
Proof.
  induction u as [|a u IH]; intros [|b v] c H Hc; try discriminate;
    simpl in Hc; try lia.
  destruct c as [|c]; [reflexivity|].
  apply (IH v c); simpl in H; lia.
Qed.

Lemma b64_vscale_nth (a : float) (u : list float) :
  forall c, c < length u ->
    nth c (Binary64.vscale a u) 0%float = (a * nth c u 0)%float.
Proof.
  induction u as [|b u IH]; intros c Hc; simpl in Hc; [lia|].
  destruct c as [|c]; [reflexivity|].
  apply IH. lia.
Qed.

(** The norm of a difference is the distance: the same operations in the
    same order. *)
Lemma b64_norm_distance (u v : list float) :
  Binary64.norm (Binary64.vsub u v) = Binary64.distance u v.
Proof.
  unfold Binary64.norm, Binary64.distance, Binary64.vsub. f_equal.
  generalize 0%float as acc.
  induction (combine u v) as [|p l IH]; intro acc.
  - reflexivity.
  - cbn [map fold_left]. apply IH.
Qed.

Lemma np_where_filter {A : Type} (p : A -> bool) (default : A) (l : list A) :
  np_where (map p l)
  = filter (fun j => p (nth j l default)) (seq 0 (length l)).
Proof.
  unfold np_where. rewrite (where_from_filter p default).
  apply filter_ext. intro j. now rewrite Nat.sub_0_r.
Qed.

(** The test of the code finds the neighbours the specification words. *)
Lemma b64_neighbors_at_of (vertices : list Binary64.vertex)
    (v : Binary64.vertex) :
  Binary64.neighbors_at vertices v = Binary64.neighbors_of vertices v.
Proof.
  unfold Binary64.neighbors_at, Binary64.neighbors_of.
  rewrite (@np_where_filter Binary64.vertex
             (fun u => Binary64.near u v) []).
  apply filter_ext. intro j. unfold Binary64.near.
  now rewrite b64_norm_distance.
Qed.

Lemma b64_neighbors_in_range (vertices : list Binary64.vertex)
    (v : Binary64.vertex) :
  Forall (fun j => j < length vertices) (Binary64.neighbors_at vertices v).
Proof.
  apply Forall_forall. intros j Hj. rewrite b64_neighbors_at_of in Hj.
  unfold Binary64.neighbors_of in Hj.
  apply filter_In in Hj. destruct Hj as [Hj _]. apply in_seq in Hj. lia.
Qed.

Lemma b64_fold_vadd_columns (dim : nat) (rs : list (list float)) :
  forall r,
    length r = dim -> Forall (fun row => length row = dim) rs ->
    length (fold_left Binary64.vadd rs r) = dim
    /\ forall c, c < dim ->
         nth c (fold_left Binary64.vadd rs r) 0%float
         = fold_left PrimFloat.add (map (fun row => nth c row 0%float) rs)
                     (nth c r 0%float).
Proof.
  induction rs as [|s rs IH]; intros r Hr Hrs.
  - split; [assumption|]. intros c _. reflexivity.
  - pose proof (Forall_inv Hrs) as Hs. cbv beta in Hs.
    pose proof (Forall_inv_tail Hrs) as Hrs'.
    destruct (IH (Binary64.vadd r s)) as [Hlen Hcol]; [|assumption|].
    + rewrite b64_vadd_length; congruence.
    + split; [exact Hlen|]. intros c Hc. cbn [fold_left map].
      rewrite Hcol by assumption.
      rewrite b64_vadd_nth by congruence. reflexivity.
Qed.

Lemma b64_np_mean_axis0_columns (dim : nat) (rows : list (list float)) :
  rows <> [] -> Forall (fun row => length row = dim) rows ->
  length (Binary64.np_mean_axis0 rows) = dim
  /\ forall c, c < dim ->
       nth c (Binary64.np_mean_axis0 rows) 0%float
       = (Binary64.sum (map (fun row => nth c row 0) rows)
          / Binary64.of_index (length rows))%float.
Proof.
  destruct rows as [|r rs]; [congruence|]. intros _ Hall.
  pose proof (Forall_inv Hall) as Hr. cbv beta in Hr.
  destruct (@b64_fold_vadd_columns dim (r :: rs) (repeat 0%float (length r)))
    as [Hlen Hcol]; [rewrite repeat_length; exact Hr | exact Hall |].
  unfold Binary64.np_mean_axis0. rewrite length_map.
  split; [exact Hlen|].
  intros c Hc.
  set (n := Binary64.of_index (length (r :: rs))).
  rewrite (nth_indep _ 0%float ((fun s => s / n) 0)%float)
    by (rewrite length_map; lia).
  rewrite (map_nth (fun s => (s / n)%float)).
  rewrite Hcol by assumption. rewrite nth_repeat. reflexivity.
Qed.

Lemma b64_gradient_at_formula
    (dim : nat) (vertices : list Binary64.vertex) (values : list float)
    (i : nat) :
  Forall (fun v => length v = dim) vertices ->
  i < length vertices ->
  2 <= length (Binary64.neighbors_of vertices (nth i vertices [])) ->
  Binary64.gradient_at vertices values i
  = Binary64.gradient_formula vertices values i.
Proof.
  intros Hdim Hi Hnb.
  assert (Hrow : forall j, j < length vertices ->
                           length (nth j vertices []) = dim).
  { intros j Hj. rewrite Forall_forall in Hdim. apply Hdim.
    now apply nth_In. }
  unfold Binary64.gradient_formula, Binary64.gradient_at.
  rewrite b64_neighbors_at_of.
  set (v := nth i vertices []) in *.
  assert (Hin : forall j, In j (Binary64.neighbors_of vertices v) ->
                          j < length vertices).
  { intros j Hj. pose proof (b64_neighbors_in_range vertices v) as H.
    rewrite b64_neighbors_at_of in H.
    rewrite Forall_forall in H. now apply H. }
  set (nb := Binary64.neighbors_of vertices v) in *.
  assert (Hv : length v = dim) by now apply Hrow.
  apply Nat.leb_le in Hnb as Hnb'. rewrite Hnb'.
  rewrite !map_map. unfold Binary64.broadcast_mul.
  rewrite combine_map_same, map_map. cbn [fst snd].
  set (row := fun j =>
                Binary64.vscale (nth j values 0 - nth i values 0)%float
                                (Binary64.vsub (nth j vertices []) v)).
  assert (Hall : Forall (fun r => length r = dim) (map row nb)).
  { apply Forall_forall. intros r Hr. apply in_map_iff in Hr.
    destruct Hr as [j [<- Hj]]. unfold row.
    rewrite b64_vscale_length, b64_vsub_length; rewrite Hrow; auto. }
  assert (Hne : map row nb <> []).
  { destruct nb; [simpl in Hnb; lia | discriminate]. }
  destruct (b64_np_mean_axis0_columns Hne Hall) as [Hlen Hcol].
  apply (nth_ext _ _ 0%float 0%float).
  - rewrite Hlen, length_map, length_seq. congruence.
  - rewrite Hlen. intros c Hc.
    rewrite Hcol by assumption. rewrite map_map, length_map.
    set (n := Binary64.of_index (length nb)).
    set (F := fun c0 : nat => (_ / n)%float).
    rewrite (nth_indep _ 0%float (F 0)) by (rewrite length_map, length_seq; lia).
    rewrite (map_nth F), seq_nth by lia. unfold F. cbn [plus].
    f_equal. f_equal. apply map_ext_in. intros j Hj. unfold row.
    rewrite b64_vscale_nth
      by (rewrite b64_vsub_length; rewrite Hrow; auto; lia).
    rewrite b64_vsub_nth; [reflexivity | rewrite Hrow; auto | rewrite Hrow; auto].
Qed.

(** The loop of [compute_gradient]: every iteration writes row [i] only, and
    only when vertex [i] has more than one neighbour. *)
Lemma b64_gradient_loop_run
    (vertices : list Binary64.vertex) (values : list float) :
  length values = length vertices ->
  forall todo i G,
    skipn i vertices = todo -> length G = length vertices ->
    exists G',
      Binary64.gradient_loop i todo vertices values G = Ok G'
      /\ length G' = length vertices
      /\ (forall j, j < i -> nth j G' [] = nth j G [])
      /\ (forall j, i <= j < length vertices ->
            nth j G' []
            = if 1 <? length (Binary64.neighbors_at vertices
                                (nth j vertices []))
              then Binary64.gradient_at vertices values j
              else nth j G []).
Proof.
  intros Hval todo.
  induction todo as [|v todo IH]; intros i G Hskip HG.
  - apply skipn_nil_inv in Hskip.
    exists G. repeat split; try assumption; intros; lia.
  - destruct (skipn_cons_inv ([] : Binary64.vertex) _ _ Hskip)
      as [Hv [Hskip' Hi]].
    cbn [Binary64.gradient_loop]. cbv zeta.
    destruct (1 <? length (Binary64.neighbors_at vertices v)) eqn:Enb.
    + rewrite (@take_in_range Binary64.vertex [] vertices
                 (Binary64.neighbors_at vertices v)
                 (b64_neighbors_in_range vertices v)).
      cbn [bind].
      rewrite (@take_in_range float 0%float values
                 (Binary64.neighbors_at vertices v))
        by (rewrite Hval; apply b64_neighbors_in_range).
      cbn [bind]. unfold item.
      rewrite (nth_error_nth' values 0%float) by lia. cbn [bind].
      set (g := Binary64.np_mean_axis0 _).
      assert (Eg : g = Binary64.gradient_at vertices values i).
      { unfold g, Binary64.gradient_at. rewrite Hv. reflexivity. }
      destruct (IH (S i) (set_row i g G) Hskip')
        as [G' [Hrun [Hlen [Hlo Hhi]]]].
      { now rewrite set_row_length. }
      exists G'. split; [exact Hrun|]. split; [exact Hlen|]. split.
      * intros j Hj. rewrite Hlo by lia. apply set_row_other. lia.
      * intros j Hj. destruct (Nat.eq_dec j i) as [->|Hne].
        -- rewrite Hlo by lia. rewrite Hv, Enb.
           rewrite set_row_same by lia. exact Eg.
        -- rewrite Hhi by lia. rewrite set_row_other by lia. reflexivity.
    + destruct (IH (S i) G Hskip' HG) as [G' [Hrun [Hlen [Hlo Hhi]]]].
      exists G'. split; [exact Hrun|]. split; [exact Hlen|]. split.
      * intros j Hj. apply Hlo. lia.
      * intros j Hj. destruct (Nat.eq_dec j i) as [->|Hne].
        -- rewrite Hlo by lia. rewrite Hv, Enb. reflexivity.
        -- apply Hhi. lia.
Qed.

(** C6: for every vertex [v] of a mesh (rows of [dim] coordinates, [dim]
    from two to seven, three for a mesh in space), [compute_gradient]
    returns the mean over the neighbours of [v] (the vertices whose
    distance from [v] is below [1e-5]) of
    [(field[neighbor] - field[v]) * (position[neighbor] - position[v])] when
    there are at least two neighbours, and the zero vector when there are
    fewer; the distance, the products, the sum and the quotient are those
    of binary64. *)
Theorem compute_gradient_is_mean_over_neighbors
    (dim : nat) (vertices : list Binary64.vertex) (values : list float) :
  2 <= dim <= 7 ->
  Forall (fun v => length v = dim) vertices ->
  length values = length vertices ->
  exists G,
    Binary64.compute_gradient vertices values = Ok G
    /\ length G = length vertices
    /\ forall i, i < length vertices ->
         nth i G [] = Binary64.gradient_formula vertices values i.
Proof.
  intros _ Hdim Hval.
  destruct (@b64_gradient_loop_run vertices values Hval vertices 0
              (Binary64.zeros_like vertices) eq_refl)
    as [G [Hrun [Hlen [_ Hrows]]]].
  { unfold Binary64.zeros_like. apply length_map. }
  exists G. split; [exact Hrun|]. split; [exact Hlen|].
  intros i Hi. rewrite Hrows by lia. rewrite b64_neighbors_at_of.
  destruct (1 <? length (Binary64.neighbors_of vertices (nth i vertices [])))
    eqn:Enb.
  - apply Nat.ltb_lt in Enb.
    now apply b64_gradient_at_formula with (dim := dim).
  - unfold Binary64.gradient_formula.
    change (2 <=? length (Binary64.neighbors_of vertices (nth i vertices [])))
      with (1 <? length (Binary64.neighbors_of vertices (nth i vertices []))).
    rewrite Enb.
    exact (map_nth (fun v : Binary64.vertex => repeat 0%float (length v))
                   vertices [] i).
Qed.

Lemma compute_gradient_is_mean_over_neighbors_witness :
  exists G,
    Binary64.compute_gradient Binary64.welded_vertices Binary64.welded_values
    = Ok G
    /\ length G = length Binary64.welded_vertices
    /\ forall i, i < length Binary64.welded_vertices ->
         nth i G []
         = Binary64.gradient_formula Binary64.welded_vertices
             Binary64.welded_values i.
Proof.
  apply (@compute_gradient_is_mean_over_neighbors 3).
  - lia.
  - repeat constructor.
  - reflexivity.
Defined.

(** ** compute_gradient: degenerate meshes and failures *)

Lemma filter_seq_single (p : nat -> bool) (i : nat) :
  forall n a,
    (forall j, a <= j < a + n -> p j = true -> j = i) ->
    length (filter p (seq a n)) <= 1.
Proof.
  intros n a H.
  assert (Hnd : NoDup (filter p (seq a n)))
    by (apply NoDup_filter, seq_NoDup).
  assert (Hall : forall j, In j (filter p (seq a n)) -> j = i).
  { intros j Hj. apply filter_In in Hj. destruct Hj as [Hj Hp].
    apply in_seq in Hj. now apply H. }
  destruct (filter p (seq a n)) as [|x [|y l]]; simpl; try lia.
  exfalso.
  assert (x = i) by (apply Hall; simpl; tauto).
  assert (y = i) by (apply Hall; simpl; tauto).
  subst. inversion Hnd as [|? ? Hnot _]; subst. apply Hnot. simpl. tauto.
Qed.

Lemma b64_gradient_loop_skip
    (vertices : list Binary64.vertex) (values : list float)
    (todo : list Binary64.vertex) :
  Forall (fun v => length (Binary64.neighbors_at vertices v) <= 1) todo ->
  forall i G, Binary64.gradient_loop i todo vertices values G = Ok G.
Proof.
  induction 1 as [|v todo Hv _ IH]; intros i G.
  - reflexivity.
  - cbn [Binary64.gradient_loop]. cbv zeta.
    replace (1 <? length (Binary64.neighbors_at vertices v)) with false
      by (symmetry; apply Nat.ltb_ge; exact Hv).
    apply IH.
Qed.

(** X14: on a mesh (rows of at most seven coordinates) in which the test
    of line 80 finds no two distinct vertices closer than the radius,
    [compute_gradient] returns the all-zero array of the shape of
    [vertices], whatever the field (its values, and even its length, are
    never read). *)
Theorem isolated_vertices_have_zero_gradient
    (vertices : list Binary64.vertex) (values : list float) :
  Forall (fun v => length v <= 7) vertices ->
  (forall i j, i < length vertices -> j < length vertices -> i <> j ->
     Binary64.near (nth j vertices []) (nth i vertices []) = false) ->
  Binary64.compute_gradient vertices values
  = Ok (Binary64.zeros_like vertices).
Proof.
  intros _ Hfar. unfold Binary64.compute_gradient.
  apply b64_gradient_loop_skip.
  apply Forall_forall. intros v Hv.
  destruct (In_nth vertices v [] Hv) as [i [Hi <-]].
  unfold Binary64.neighbors_at.
  rewrite (@np_where_filter Binary64.vertex
             (fun u => Binary64.near u (nth i vertices [])) []).
  apply filter_seq_single with (i := i).
  intros j Hj Hnear.
  destruct (Nat.eq_dec i j) as [E|E]; [congruence|].
  rewrite Hfar in Hnear by (assumption || lia). discriminate.
Qed.

Lemma isolated_vertices_have_zero_gradient_witness :
  Binary64.compute_gradient Binary64.spread_vertices [5]%float
  = Ok (Binary64.zeros_like Binary64.spread_vertices).
Proof.
  apply isolated_vertices_have_zero_gradient.
  - repeat (apply Forall_cons; [simpl; lia|]); apply Forall_nil.
  - intros i j Hi Hj Hij. simpl in Hi, Hj.
    destruct i as [|[|[|i]]]; destruct j as [|[|[|j]]];
      try lia; reflexivity.
Defined.

Lemma take_result {A : Type} (a : list A) (idx : list nat) :
  (exists l, take a idx = Ok l) \/ take a idx = Raise IndexError.
Proof.
  induction idx as [|k idx IH]; [left; now exists []|].
  cbn [take]. destruct (nth_error a k) as [y|]; [|now right].
  destruct IH as [[l ->] | ->]; [left; now eexists | now right].
Qed.

Lemma b64_gradient_loop_short_field
    (vertices : list Binary64.vertex) (values : list float) (k : nat) :
  k < length vertices ->
  2 <= length (Binary64.neighbors_at vertices (nth k vertices [])) ->
  length values <= k ->
  forall todo i G,
    skipn i vertices = todo -> i <= k ->
    Binary64.gradient_loop i todo vertices values G = Raise IndexError.
Proof.
  intros Hk Hnb Hshort todo.
  induction todo as [|v todo IH]; intros i G Hskip Hik.
  - apply skipn_nil_inv in Hskip. lia.
  - destruct (skipn_cons_inv ([] : Binary64.vertex) _ _ Hskip)
      as [Hv [Hskip' Hi]].
    cbn [Binary64.gradient_loop]. cbv zeta.
    destruct (Nat.eq_dec i k) as [->|Hne].
    + rewrite <- Hv.
      replace (1 <? length (Binary64.neighbors_at vertices
                              (nth k vertices [])))
        with true by (symmetry; apply Nat.ltb_lt; lia).
      rewrite (@take_in_range Binary64.vertex [] vertices _
                 (b64_neighbors_in_range vertices (nth k vertices []))).
      cbn [bind].
      destruct (take_result values
                  (Binary64.neighbors_at vertices (nth k vertices [])))
        as [[vals ->]| ->]; [|reflexivity].
      cbn [bind]. unfold item.
      replace (nth_error values k) with (@None float)
        by (symmetry; now apply nth_error_None).
      reflexivity.
    + destruct (1 <? length (Binary64.neighbors_at vertices v));
        [|apply IH; [assumption | lia]].
      rewrite (@take_in_range Binary64.vertex [] vertices _
                 (b64_neighbors_in_range vertices v)).
      cbn [bind].
      destruct (take_result values (Binary64.neighbors_at vertices v))
        as [[vals ->]| ->]; [|reflexivity].
      cbn [bind]. unfold item.
      destruct (nth_error values i); [|reflexivity].
      cbn [bind]. apply IH; [assumption | lia].
Qed.

(** X15: a field too short for the mesh (rows of at most seven
    coordinates) makes [compute_gradient] raise [IndexError] as soon as the
    test of line 80 finds more than one neighbour for some vertex beyond
    the end of the field. *)
Theorem compute_gradient_short_field
    (vertices : list Binary64.vertex) (values : list float) (k : nat) :
  Forall (fun v => length v <= 7) vertices ->
  k < length vertices ->
  2 <= length (Binary64.neighbors_at vertices (nth k vertices [])) ->
  length values <= k ->
  Binary64.compute_gradient vertices values = Raise IndexError.
Proof.
  intros _ Hk Hnb Hshort. unfold Binary64.compute_gradient.
  now apply (@b64_gradient_loop_short_field vertices values k Hk Hnb Hshort
               vertices 0 (Binary64.zeros_like vertices) eq_refl),
            Nat.le_0_l.
Qed.

Lemma compute_gradient_short_field_witness :
  Binary64.compute_gradient Binary64.welded_vertices [0]%float
  = Raise IndexError.
Proof.
  apply (@compute_gradient_short_field Binary64.welded_vertices [0]%float 1).
  - repeat (apply Forall_cons; [simpl; lia|]); apply Forall_nil.
  - simpl. lia.
  - vm_compute. lia.
  - simpl. lia.
Defined.
